(** * VoiceForge front end: the playback controller and the voice-request client

    A shallow embedding of the React components of the repository:
    - [Studio]  : the [VoiceStudio] component (channel client, [generateSpeech]);
    - [Player]  : the current [AudioPlayer] component (placeholder simulation,
                  real media playback, error reporting, seeking, [formatTime]);
    - [Legacy]  : the earlier [AudioPlayer] of [frontend/src/components].

    JavaScript values are modelled as the code has them: a string is its
    sequence of UTF-16 code units, a number is an IEEE-754 binary64 value
    (Rocq's primitive [float]), [useState] cells and [useRef] boxes are record
    fields, the browser's interval table is a finite map from timer ids to the
    closure state of the callback, and the browser's reading of a URL
    attribute is a parameter ([Player.Browser]). *)

From stdpp Require Import base option list gmap.
From Stdlib Require Import ZArith NArith List String Ascii Bool Lia.
From Stdlib Require Import DecimalString DecimalN.
From Stdlib Require Import PrimFloat FloatOps SpecFloat.
Import ListNotations.

Set Default Proof Using "Type".
Set Warnings "-inexact-float".
Local Open Scope N_scope.
Local Open Scope list_scope.

(* ===================================================================== *)
(** ** JavaScript strings *)
(* ===================================================================== *)

Module JS.

(** A JavaScript string: the list of its UTF-16 code units. *)
Definition jsstring := list N.

(** String literals of the source, written as Rocq strings. *)
Fixpoint lit (s : string) : jsstring :=
  match s with
  | EmptyString => []
  | String c s' => N_of_ascii c :: lit s'
  end.

Fixpoint startsWith (s p : jsstring) : bool :=
  match p, s with
  | [], _ => true
  | _ :: _, [] => false
  | c :: p', d :: s' => (c =? d) && startsWith s' p'
  end.

(** [String.prototype.includes]: some suffix of [s] starts with [needle]. *)
Fixpoint includes (s needle : jsstring) : bool :=
  startsWith s needle ||
  match s with
  | [] => false
  | _ :: s' => includes s' needle
  end.

(** WhiteSpace and LineTerminator code units of ECMAScript, the ones
    [String.prototype.trim] strips. *)
Definition isWhiteSpace (c : N) : bool :=
  (c =? 9) || (c =? 10) || (c =? 11) || (c =? 12) || (c =? 13) || (c =? 32)
  || (c =? 160) || (c =? 5760) || ((8192 <=? c) && (c <=? 8202))
  || (c =? 8232) || (c =? 8233) || (c =? 8239) || (c =? 8287)
  || (c =? 12288) || (c =? 65279).

Fixpoint trimStart (s : jsstring) : jsstring :=
  match s with
  | [] => []
  | c :: s' => if isWhiteSpace c then trimStart s' else s
  end.

Definition trimEnd (s : jsstring) : jsstring := rev (trimStart (rev s)).

Definition trim (s : jsstring) : jsstring := trimEnd (trimStart s).

(** [String.prototype.toLowerCase] on the code units whose lower case is or
    contains an ASCII letter (A-Z, U+212A KELVIN SIGN, U+0130); the case
    mapping of the other code units is left out, every string the source
    searches the result for being ASCII. *)
Definition lowerUnit (c : N) : jsstring :=
  if (65 <=? c) && (c <=? 90) then [c + 32]
  else if c =? 8490 then [107]
  else if c =? 304 then [105; 775]
  else [c].

Definition toLowerCase (s : jsstring) : jsstring := flat_map lowerUnit s.

(** [s.padStart(n, "0")]. *)
Definition padStart0 (n : nat) (s : jsstring) : jsstring :=
  repeat 48 (n - List.length s)%nat ++ s.

(** [s === t] on strings. *)
Fixpoint streq (s t : jsstring) : bool :=
  match s, t with
  | [], [] => true
  | c :: s', d :: t' => (c =? d) && streq s' t'
  | _, _ => false
  end.

(** Truthiness of a string: only the empty string is falsy. *)
Definition truthy (s : jsstring) : bool :=
  match s with [] => false | _ => true end.

End JS.

Import JS.

(* ===================================================================== *)
(** ** URL classification of both players *)
(* ===================================================================== *)

Module Url.

(** [isPlaceholderUrl] of the current player. *)
Definition isPlaceholderUrl (url : jsstring) : bool :=
  includes url (lit "placeholder_") ||
  includes url (lit "mock-audio") ||
  includes url (lit "error_placeholder") ||
  includes url (lit "fallback_").

(** [isMurfUrl] of the current player. *)
Definition isMurfUrl (url : jsstring) : bool :=
  includes url (lit "murf.ai") || includes url (lit "amazonaws.com").

(** [isMockUrl] of the earlier player (the same test guards its mock branch). *)
Definition isMockUrl (url : jsstring) : bool :=
  includes url (lit "mock-audio-service.com") ||
  includes url (lit "placeholder_").

End Url.

(* ===================================================================== *)
(** ** JavaScript numbers *)
(* ===================================================================== *)

Module Num.

(** A number is a binary64 [float]; [Prim2SF] decodes it into sign, mantissa
    and exponent.  Addition, subtraction, multiplication, division and the
    comparisons are the primitive (rounded) operations.  The operations that
    are exact on binary64 values ([%], [Math.floor]) are computed on the
    decoded form. *)

Definition isNaN (x : float) : bool :=
  match Prim2SF x with S754_nan => true | _ => false end.

Definition isFinite (x : float) : bool :=
  match Prim2SF x with
  | S754_nan | S754_infinity _ => false
  | _ => true
  end.

(** [x === y] on numbers (IEEE equality: [NaN] differs from itself, the two
    zeros are equal). *)
Definition strictEq (x y : float) : bool := PrimFloat.eqb x y.

(** [x >= y]. *)
Definition geb (x y : float) : bool := PrimFloat.leb y x.

(** Truthiness of a number: [0], [-0] and [NaN] are falsy. *)
Definition truthy (x : float) : bool :=
  match Prim2SF x with S754_nan | S754_zero _ => false | _ => true end.

(** [x % d] for a positive integer divisor [d]: the remainder has the sign of
    the dividend and is exact. *)
Definition remainder (x : spec_float) (d : positive) : spec_float :=
  match x with
  | S754_nan | S754_infinity _ => S754_nan
  | S754_zero s => S754_zero s
  | S754_finite s m e =>
      if (0 <=? e)%Z then
        match ((Z.pos m * 2 ^ e) mod Z.pos d)%Z with
        | Z.pos r => S754_finite s r 0
        | _ => S754_zero s
        end
      else
        match (Z.pos m mod (Z.pos d * 2 ^ (- e)))%Z with
        | Z.pos r => S754_finite s r e
        | _ => S754_zero s
        end
  end.

(** [Math.floor]. *)
Definition floor (x : spec_float) : spec_float :=
  match x with
  | S754_finite s m e =>
      if (0 <=? e)%Z then x
      else
        match ((if s then Z.neg m else Z.pos m) / 2 ^ (- e))%Z with
        | Z.pos n => S754_finite false n 0
        | Z.neg n => S754_finite true n 0
        | Z0 => S754_zero s
        end
  | _ => x
  end.

(** The integer a decoded finite number denotes, when it denotes one. *)
Definition integerValue (m : positive) (e : Z) : option Z :=
  if (0 <=? e)%Z then Some (Z.pos m * 2 ^ e)%Z
  else if (Z.pos m mod 2 ^ (- e) =? 0)%Z then Some (Z.pos m / 2 ^ (- e))%Z
  else None.

(** Decimal digits of a natural number, as code units. *)
Definition decimal (n : N) : jsstring :=
  lit (NilEmpty.string_of_uint (N.to_uint n)).

Section ToString.

(** [Number::toString] prints the shortest digits that read back as the
    number.  For an integer below [2^53] in magnitude these are its decimal
    digits: its neighbours are at least 1 away, so no shorter numeral reads
    back as it.  Beyond [2^53] the digits printed are not the exact ones (60 *
    2^60 prints as 1152921504606847000); these numbers, the fractions and the
    exponent notation are the engine's. *)
Variable toStringOther : spec_float -> jsstring.

Definition numberToString (x : spec_float) : jsstring :=
  match x with
  | S754_nan => lit "NaN"
  | S754_infinity false => lit "Infinity"
  | S754_infinity true => lit "-Infinity"
  | S754_zero _ => lit "0"
  | S754_finite s m e =>
      match integerValue m e with
      | Some n =>
          if (n <? 2 ^ 53)%Z
          then (if s then lit "-" else []) ++ decimal (Z.to_N n)
          else toStringOther x
      | None => toStringOther x
      end
  end.

End ToString.

End Num.

(* ===================================================================== *)
(** ** The current player ([AudioPlayer] with placeholder simulation) *)
(* ===================================================================== *)

Module Player.

Import Url.

(** The [<audio>] element behind [audioRef]: the attributes the component
    reads and writes. *)
Record Media := mkMedia {
  paused : bool;
  ended : bool;
  position : float;            (* the [currentTime] attribute *)
  mediaDuration : float;       (* the [duration] attribute *)
  src : option jsstring;
  mediaVolume : float;
  crossOrigin : option jsstring;
  readyState : N;
  networkState : N
}.

Definition HAVE_NOTHING : N := 0.
Definition HAVE_CURRENT_DATA : N := 2.
Definition NETWORK_LOADING : N := 2.
Definition NETWORK_NO_SOURCE : N := 3.

(** [audio.error]: a [MediaError] with its code and message. *)
Record MediaError := mkMediaError { code : N; message : jsstring }.

Definition MEDIA_ERR_ABORTED : N := 1.
Definition MEDIA_ERR_NETWORK : N := 2.
Definition MEDIA_ERR_DECODE : N := 3.
Definition MEDIA_ERR_SRC_NOT_SUPPORTED : N := 4.

(** What a [catch] clause receives: an [Error] (or [DOMException]) with its
    name and message, or a value that is not an [Error]. *)
Inductive Thrown :=
| ThrownError (name msg : jsstring)
| ThrownOther.

(** The promise [audio.play()] returned, while [playPromiseRef] holds it. *)
Inductive Promise := PlayPromise.

(** Requests that leave the browser. *)
Inductive Request :=
| Head (url : jsstring)          (* [fetch(url, {method: 'HEAD'})] *)
| MediaLoad (url : jsstring)     (* the media element fetching its resource *)
| OpenTab (url : jsstring).      (* [window.open(url, '_blank')] *)

Record State := mkState {
  (* props *)
  audioUrl : option jsstring;
  isLoading : bool;
  (* useState cells *)
  isPlaying : bool;
  duration : float;
  currentTime : float;
  audioError : option jsstring;
  isLoadingAudio : bool;
  audioTested : bool;
  volume : float;
  (* useRef boxes *)
  audioRef : option Media;
  playPromiseRef : option Promise;
  simulationIntervalRef : option positive;
  (* the browser: the active intervals, each with the [progress] variable
     of its callback; the next timer id; the requests issued so far *)
  timers : gmap positive float;
  nextTimer : positive;
  network : list Request;
  (* whether the component instance is still mounted *)
  mounted : bool
}.

Definition setAudioUrl (v : option jsstring) (s : State) : State :=
  mkState v (s.(isLoading)) (s.(isPlaying)) (s.(duration)) (s.(currentTime))
    (s.(audioError)) (s.(isLoadingAudio)) (s.(audioTested)) (s.(volume))
    (s.(audioRef)) (s.(playPromiseRef)) (s.(simulationIntervalRef))
    (s.(timers)) (s.(nextTimer)) (s.(network)) (s.(mounted)).
Definition setIsLoading (v : bool) (s : State) : State :=
  mkState (s.(audioUrl)) v (s.(isPlaying)) (s.(duration)) (s.(currentTime))
    (s.(audioError)) (s.(isLoadingAudio)) (s.(audioTested)) (s.(volume))
    (s.(audioRef)) (s.(playPromiseRef)) (s.(simulationIntervalRef))
    (s.(timers)) (s.(nextTimer)) (s.(network)) (s.(mounted)).
Definition setIsPlaying (v : bool) (s : State) : State :=
  mkState (s.(audioUrl)) (s.(isLoading)) v (s.(duration)) (s.(currentTime))
    (s.(audioError)) (s.(isLoadingAudio)) (s.(audioTested)) (s.(volume))
    (s.(audioRef)) (s.(playPromiseRef)) (s.(simulationIntervalRef))
    (s.(timers)) (s.(nextTimer)) (s.(network)) (s.(mounted)).
Definition setDuration (v : float) (s : State) : State :=
  mkState (s.(audioUrl)) (s.(isLoading)) (s.(isPlaying)) v (s.(currentTime))
    (s.(audioError)) (s.(isLoadingAudio)) (s.(audioTested)) (s.(volume))
    (s.(audioRef)) (s.(playPromiseRef)) (s.(simulationIntervalRef))
    (s.(timers)) (s.(nextTimer)) (s.(network)) (s.(mounted)).
Definition setCurrentTime (v : float) (s : State) : State :=
  mkState (s.(audioUrl)) (s.(isLoading)) (s.(isPlaying)) (s.(duration)) v
    (s.(audioError)) (s.(isLoadingAudio)) (s.(audioTested)) (s.(volume))
    (s.(audioRef)) (s.(playPromiseRef)) (s.(simulationIntervalRef))
    (s.(timers)) (s.(nextTimer)) (s.(network)) (s.(mounted)).
Definition setAudioError (v : option jsstring) (s : State) : State :=
  mkState (s.(audioUrl)) (s.(isLoading)) (s.(isPlaying)) (s.(duration))
    (s.(currentTime)) v (s.(isLoadingAudio)) (s.(audioTested)) (s.(volume))
    (s.(audioRef)) (s.(playPromiseRef)) (s.(simulationIntervalRef))
    (s.(timers)) (s.(nextTimer)) (s.(network)) (s.(mounted)).
Definition setIsLoadingAudio (v : bool) (s : State) : State :=
  mkState (s.(audioUrl)) (s.(isLoading)) (s.(isPlaying)) (s.(duration))
    (s.(currentTime)) (s.(audioError)) v (s.(audioTested)) (s.(volume))
    (s.(audioRef)) (s.(playPromiseRef)) (s.(simulationIntervalRef))
    (s.(timers)) (s.(nextTimer)) (s.(network)) (s.(mounted)).
Definition setAudioTested (v : bool) (s : State) : State :=
  mkState (s.(audioUrl)) (s.(isLoading)) (s.(isPlaying)) (s.(duration))
    (s.(currentTime)) (s.(audioError)) (s.(isLoadingAudio)) v (s.(volume))
    (s.(audioRef)) (s.(playPromiseRef)) (s.(simulationIntervalRef))
    (s.(timers)) (s.(nextTimer)) (s.(network)) (s.(mounted)).
Definition setVolume (v : float) (s : State) : State :=
  mkState (s.(audioUrl)) (s.(isLoading)) (s.(isPlaying)) (s.(duration))
    (s.(currentTime)) (s.(audioError)) (s.(isLoadingAudio))
    (s.(audioTested)) v (s.(audioRef)) (s.(playPromiseRef))
    (s.(simulationIntervalRef)) (s.(timers)) (s.(nextTimer)) (s.(network))
    (s.(mounted)).
Definition setAudioRef (v : option Media) (s : State) : State :=
  mkState (s.(audioUrl)) (s.(isLoading)) (s.(isPlaying)) (s.(duration))
    (s.(currentTime)) (s.(audioError)) (s.(isLoadingAudio))
    (s.(audioTested)) (s.(volume)) v (s.(playPromiseRef))
    (s.(simulationIntervalRef)) (s.(timers)) (s.(nextTimer)) (s.(network))
    (s.(mounted)).
Definition setPlayPromiseRef (v : option Promise) (s : State) : State :=
  mkState (s.(audioUrl)) (s.(isLoading)) (s.(isPlaying)) (s.(duration))
    (s.(currentTime)) (s.(audioError)) (s.(isLoadingAudio))
    (s.(audioTested)) (s.(volume)) (s.(audioRef)) v
    (s.(simulationIntervalRef)) (s.(timers)) (s.(nextTimer)) (s.(network))
    (s.(mounted)).
Definition setSimulationIntervalRef (v : option positive) (s : State) : State :=
  mkState (s.(audioUrl)) (s.(isLoading)) (s.(isPlaying)) (s.(duration))
    (s.(currentTime)) (s.(audioError)) (s.(isLoadingAudio))
    (s.(audioTested)) (s.(volume)) (s.(audioRef)) (s.(playPromiseRef)) v
    (s.(timers)) (s.(nextTimer)) (s.(network)) (s.(mounted)).
Definition setTimers (v : gmap positive float) (s : State) : State :=
  mkState (s.(audioUrl)) (s.(isLoading)) (s.(isPlaying)) (s.(duration))
    (s.(currentTime)) (s.(audioError)) (s.(isLoadingAudio))
    (s.(audioTested)) (s.(volume)) (s.(audioRef)) (s.(playPromiseRef))
    (s.(simulationIntervalRef)) v (s.(nextTimer)) (s.(network))
    (s.(mounted)).
Definition setNextTimer (v : positive) (s : State) : State :=
  mkState (s.(audioUrl)) (s.(isLoading)) (s.(isPlaying)) (s.(duration))
    (s.(currentTime)) (s.(audioError)) (s.(isLoadingAudio))
    (s.(audioTested)) (s.(volume)) (s.(audioRef)) (s.(playPromiseRef))
    (s.(simulationIntervalRef)) (s.(timers)) v (s.(network)) (s.(mounted)).
Definition setNetwork (v : list Request) (s : State) : State :=
  mkState (s.(audioUrl)) (s.(isLoading)) (s.(isPlaying)) (s.(duration))
    (s.(currentTime)) (s.(audioError)) (s.(isLoadingAudio))
    (s.(audioTested)) (s.(volume)) (s.(audioRef)) (s.(playPromiseRef))
    (s.(simulationIntervalRef)) (s.(timers)) (s.(nextTimer)) v (s.(mounted)).
Definition setMounted (v : bool) (s : State) : State :=
  mkState (s.(audioUrl)) (s.(isLoading)) (s.(isPlaying)) (s.(duration))
    (s.(currentTime)) (s.(audioError)) (s.(isLoadingAudio))
    (s.(audioTested)) (s.(volume)) (s.(audioRef)) (s.(playPromiseRef))
    (s.(simulationIntervalRef)) (s.(timers)) (s.(nextTimer)) (s.(network)) v.

(** Statements of a handler run one after the other on the state. *)
Definition andThen (f g : State -> State) : State -> State :=
  fun s => g (f s).
Infix ">>" := andThen (at level 55, right associativity).

Definition skip : State -> State := fun s => s.

(** [!audioUrl]: the prop is undefined or the empty string. *)
Definition hasUrl (u : option jsstring) : bool :=
  match u with Some s => JS.truthy s | None => false end.

(** [audioUrl || ''] *)
Definition urlOrEmpty (u : option jsstring) : jsstring :=
  match u with Some s => s | None => [] end.

(** *** Timers *)

Definition clearInterval (id : positive) (s : State) : State :=
  setTimers (delete id (s.(timers))) s.

(** [setInterval(callback, 100)], the callback closing over [progress]. *)
Definition setInterval (progress : float) (s : State) : positive * State :=
  let id := s.(nextTimer) in
  (id, setNextTimer (Pos.succ id) (setTimers (<[id := progress]> (s.(timers))) s)).

(** *** The media element *)

(** The browser's URL parser: [resolveUrl u] is the string [audio.src] reads
    back while the [src] attribute holds [u], the URL resolved against the
    base of the document and serialised (the attribute itself when it cannot
    be parsed).  An absolute URL in serialised form reads back as itself; a
    relative one, or one the parser rewrites, does not. *)
Class Browser := { resolveUrl : jsstring -> jsstring }.

(** The [crossOrigin] attribute of the rendered element:
    [crossOrigin={isMurfUrl(audioUrl) ? "anonymous" : undefined}]. *)
Definition renderedCrossOrigin (url : jsstring) : option jsstring :=
  if isMurfUrl url then Some (lit "anonymous") else None.

(** The element as React creates it for [url]: paused at 0, no [src]
    attribute (the URL is in its [<source>] children), full volume, no data
    yet and its resource being fetched. *)
Definition freshMedia (url : jsstring) : Media :=
  mkMedia true false 0 nan None 1 (renderedCrossOrigin url)
          HAVE_NOTHING NETWORK_LOADING.

Definition withAudio (f : Media -> Media) (s : State) : State :=
  match s.(audioRef) with
  | Some a => setAudioRef (Some (f a)) s
  | None => s
  end.

Definition pause (a : Media) : Media :=
  mkMedia true a.(ended) a.(position) a.(mediaDuration) a.(src)
          a.(mediaVolume) a.(crossOrigin) a.(readyState) a.(networkState).

(** [audio.currentTime = t] for a finite [t]: the value is kept as assigned
    (what the browser makes of a time outside the seekable range is not part
    of the model). *)
Definition seekTo (t : float) (a : Media) : Media :=
  mkMedia a.(paused) false t a.(mediaDuration) a.(src)
          a.(mediaVolume) a.(crossOrigin) a.(readyState) a.(networkState).

(** [audio.currentTime = t] for any [t]: the attribute is a [double] of
    Web IDL, which takes no [NaN] and no infinity; on such a value the setter
    throws a [TypeError] ([None]) and assigns nothing. *)
Definition setMediaCurrentTime (t : float) (a : Media) : option Media :=
  if Num.isFinite t then Some (seekTo t a) else None.

(** [audio.play()]: playback of an ended element restarts from 0. *)
Definition play (a : Media) : Media :=
  mkMedia false false (if a.(ended) then 0%float else a.(position))
          a.(mediaDuration) a.(src) a.(mediaVolume) a.(crossOrigin)
          a.(readyState) a.(networkState).

Definition setMediaVolume (v : float) (a : Media) : Media :=
  mkMedia a.(paused) a.(ended) a.(position) a.(mediaDuration) a.(src)
          v a.(crossOrigin) a.(readyState) a.(networkState).

(** The part of the media element load algorithm that runs at once, in
    [audio.load()] and in an assignment to [src]: the element is paused, its
    position goes back to 0, its duration and its data are forgotten, and it
    waits for the selection of its resource ([NETWORK_NO_SOURCE]), which
    starts the fetch once the handler has returned. *)
Definition load (a : Media) : Media :=
  mkMedia true false 0 nan a.(src) a.(mediaVolume) a.(crossOrigin)
          HAVE_NOTHING NETWORK_NO_SOURCE.

(** [audio.src = u], which runs the load algorithm, followed by
    [audio.crossOrigin = 'anonymous'] when [anonymous] holds. *)
Definition setSrc (u : jsstring) (anonymous : bool) (a : Media) : Media :=
  let a := load a in
  mkMedia a.(paused) a.(ended) a.(position) a.(mediaDuration) (Some u)
          a.(mediaVolume)
          (if anonymous then Some (lit "anonymous") else a.(crossOrigin))
          a.(readyState) a.(networkState).

(** [audio.src], read: the empty string without the attribute, else the
    attribute as the browser resolves it. *)
Definition srcOf {b : Browser} (a : Media) : jsstring :=
  match a.(src) with
  | Some u => resolveUrl u
  | None => []
  end.

(** React writes the [crossOrigin] attribute of a new render to an element
    it keeps. *)
Definition setCrossOrigin (c : option jsstring) (a : Media) : Media :=
  mkMedia a.(paused) a.(ended) a.(position) a.(mediaDuration) a.(src)
          a.(mediaVolume) c a.(readyState) a.(networkState).

(** The browser's side of media events. *)
Definition mediaAt (t : float) (a : Media) : Media :=
  mkMedia a.(paused) a.(ended) t a.(mediaDuration) a.(src)
          a.(mediaVolume) a.(crossOrigin) a.(readyState) a.(networkState).

Definition mediaEnded (a : Media) : Media :=
  mkMedia a.(paused) true a.(position) a.(mediaDuration) a.(src)
          a.(mediaVolume) a.(crossOrigin) a.(readyState) a.(networkState).

Definition mediaMetadata (d : float) (a : Media) : Media :=
  mkMedia a.(paused) a.(ended) a.(position) d a.(src)
          a.(mediaVolume) a.(crossOrigin) a.(readyState) a.(networkState).

(** The browser changed [readyState] and [networkState]: data arrived, the
    fetch started, was suspended, ended or failed. *)
Definition mediaState (ready network : N) (a : Media) : Media :=
  mkMedia a.(paused) a.(ended) a.(position) a.(mediaDuration) a.(src)
          a.(mediaVolume) a.(crossOrigin) ready network.

(** The element is advancing its clock. *)
Definition mediaPlaying (a : Media) : bool :=
  negb a.(paused) && negb a.(ended).

Definition request (r : Request) (s : State) : State :=
  setNetwork (s.(network) ++ [r]) s.

(** *** Effects *)

(** The effect on [[audioUrl]]: "Reset states when audioUrl changes". *)
Definition resetEffect : State -> State :=
  setIsPlaying false >>
  setCurrentTime 0 >>
  setDuration 0 >>
  setAudioError None >>
  setAudioTested false >>
  setIsLoadingAudio false >>
  (fun s => match s.(simulationIntervalRef) with
            | Some id => setSimulationIntervalRef None (clearInterval id s)
            | None => s
            end) >>
  setPlayPromiseRef None >>
  withAudio (fun a => seekTo 0 (pause a)).

(** [testAudioUrl] up to its [await]: Murf URLs are not probed. *)
Definition testAudioUrl (url : jsstring) : State -> State :=
  if isMurfUrl url then setAudioTested true
  else request (Head url).

(** [testAudioUrl] after the [fetch] settled: [Some ok] is the response's
    [ok] flag with its status, [None] a rejected fetch. *)
Definition testAudioUrlSettled (response : option (bool * N)) : State -> State :=
  match response with
  | Some (false, status) =>
      setAudioError
        (Some (lit "Audio file not accessible (" ++ Num.decimal status ++ lit ")"))
      >> setAudioTested true
  | _ => setAudioTested true
  end.

(** The effect on [[audioUrl, audioTested]]. *)
Definition testEffect (s : State) : State :=
  match s.(audioUrl) with
  | Some url =>
      if JS.truthy url && negb s.(audioTested) && negb (isPlaceholderUrl url)
      then testAudioUrl url s
      else s
  | None => s
  end.

(** *** Placeholder playback *)

Definition playPlaceholderAudio (s : State) : State :=
  if negb (hasUrl s.(audioUrl)) then s
  else
    let s := (setIsLoadingAudio false >> setIsPlaying true >> setDuration 5) s in
    let s := match s.(simulationIntervalRef) with
             | Some id => clearInterval id s
             | None => s
             end in
    let '(id, s) := setInterval 0 s in
    setSimulationIntervalRef (Some id) s.

(** One firing of the interval callback of timer [id]. *)
Definition intervalCallback (id : positive) (s : State) : State :=
  match s.(timers) !! id with
  | None => s
  | Some p =>
      let progress := (p + 0.1)%float in
      let s := setTimers (<[id := progress]> (s.(timers))) s in
      let s := setCurrentTime progress s in
      if Num.geb progress 5 then
        let s := (setIsPlaying false >> setCurrentTime 0) s in
        match s.(simulationIntervalRef) with
        | Some r => setSimulationIntervalRef None (clearInterval r s)
        | None => s
        end
      else s
  end.

(** [stopCurrentPlayback]; the wait for a pending play promise is not a
    separate step. *)
Definition stopCurrentPlayback : State -> State :=
  (fun s => match s.(simulationIntervalRef) with
            | Some id => setSimulationIntervalRef None (clearInterval id s)
            | None => s
            end) >>
  (fun s => match s.(audioRef) with
            | Some a =>
                let s := match s.(playPromiseRef) with
                         | Some _ => setPlayPromiseRef None s
                         | None => s
                         end in
                let a := if negb a.(paused) then pause a else a in
                setAudioRef (Some (seekTo 0 a)) s
            | None => s
            end) >>
  setIsPlaying false >>
  setCurrentTime 0.

(** *** [togglePlay] *)

(** The [catch] block of [togglePlay]. *)
Definition playbackErrorMessage (error : Thrown) : jsstring :=
  match error with
  | ThrownError name msg =>
      let errorMessage := toLowerCase msg in
      if includes errorMessage (lit "interrupted")
         || includes errorMessage (lit "aborted")
      then lit "Playback was interrupted. Please try again."
      else if includes errorMessage (lit "cors")
              || includes errorMessage (lit "cross-origin")
      then lit "CORS error - audio may still be accessible via direct link"
      else if includes errorMessage (lit "timeout")
      then lit "Audio loading timed out - the file may be large or server slow"
      else if streq name (lit "NotSupportedError")
      then lit "Audio format not supported by your browser"
      else if streq name (lit "NotAllowedError")
      then lit "Audio playback blocked. Click to enable audio"
      else if includes errorMessage (lit "network")
              || includes errorMessage (lit "fetch")
      then lit "Network error: Unable to load audio file"
      else lit "Playback failed: " ++ msg
  | ThrownOther =>
      lit "Unable to play audio. The file may be temporarily unavailable."
  end.

Definition togglePlayCatch (error : Thrown) : State -> State :=
  setIsLoadingAudio false >>
  setIsPlaying false >>
  setPlayPromiseRef None >>
  setAudioError (Some (playbackErrorMessage error)).

(** The rejections [togglePlay] builds itself. *)
Definition loadTimeoutError : Thrown :=
  ThrownError (lit "Error") (lit "Audio load timeout").

Definition loadFailedError (error : option MediaError) : Thrown :=
  match error with
  | Some e =>
      ThrownError (lit "Error")
        (lit "Audio load error: " ++
         (if JS.truthy e.(message) then e.(message) else lit "Unknown error"))
  | None => ThrownError (lit "Error") (lit "Audio failed to load")
  end.

(** The [TypeError] of [audioRef.current.volume = volume] on a detached
    ref (the engine's wording). *)
Definition nullRefError : Thrown :=
  ThrownError (lit "TypeError")
    (lit "Cannot set properties of null (setting 'volume')").

(** [togglePlay] up to its first [await]: the assignment to [src], then the
    executor of [loadAudio], which resolves at once when the element has
    data and calls [audio.load()] when it waits for a resource.  Right after
    an assignment to [src] it does, so that [audio.load()] runs and takes
    the place of the load the assignment began; the fetch it starts is the
    one request. *)
Definition togglePlay {b : Browser} (s : State) : State :=
  match s.(audioUrl) with
  | Some url =>
      if negb (JS.truthy url)
      then setAudioError (Some (lit "No audio URL available")) s
      else
        let s := setAudioError None s in
        if isPlaceholderUrl url then
          if s.(isPlaying) then stopCurrentPlayback s
          else playPlaceholderAudio s
        else
          match s.(audioRef) with
          | None => s
          | Some a =>
              if s.(isPlaying) then stopCurrentPlayback s
              else
                let s := setIsLoadingAudio true s in
                let a := if negb (streq (srcOf a) url)
                         then setSrc url (isMurfUrl url) a
                         else a in
                if HAVE_CURRENT_DATA <=? a.(readyState)
                then setAudioRef (Some a) s
                else if a.(networkState) =? NETWORK_NO_SOURCE
                then request (MediaLoad url) (setAudioRef (Some (load a)) s)
                else setAudioRef (Some a) s
          end
  | None => setAudioError (Some (lit "No audio URL available")) s
  end.

(** [togglePlay] after [Promise.race([loadAudio, loadTimeout])] resolved.
    The function goes on in the closure of the click: [volume] is the value
    the volume cell had in the render the click was delivered to, whatever
    the cell holds now; [audioRef.current] is read anew. *)
Definition togglePlayLoaded (volume : float) (s : State) : State :=
  match s.(audioRef) with
  | None => togglePlayCatch nullRefError s
  | Some a =>
      (setAudioRef (Some (play (setMediaVolume volume a))) >>
       setPlayPromiseRef (Some PlayPromise)) s
  end.

(** [togglePlay] after the play promise resolved. *)
Definition togglePlayStarted : State -> State :=
  setIsPlaying true >>
  setIsLoadingAudio false >>
  setPlayPromiseRef None.

(** *** Media event handlers *)

Definition handleTimeUpdate (s : State) : State :=
  match s.(audioRef) with
  | Some a => if s.(isPlaying) then setCurrentTime a.(position) s else s
  | None => s
  end.

Definition handleLoadedMetadata (s : State) : State :=
  match s.(audioRef) with
  | Some a =>
      (setDuration (if Num.truthy a.(mediaDuration)
                    then a.(mediaDuration) else 0%float) >>
       setAudioError None) s
  | None => s
  end.

Definition handleEnded : State -> State :=
  setIsPlaying false >>
  setCurrentTime 0 >>
  setPlayPromiseRef None >>
  (fun s => match s.(simulationIntervalRef) with
            | Some id => setSimulationIntervalRef None (clearInterval id s)
            | None => s
            end).

Definition audioErrorMessage (error : option MediaError) : jsstring :=
  match error with
  | Some e =>
      if e.(code) =? MEDIA_ERR_ABORTED
      then lit "Audio loading was aborted"
      else if e.(code) =? MEDIA_ERR_NETWORK
      then lit "Network error while loading audio - check your connection"
      else if e.(code) =? MEDIA_ERR_DECODE
      then lit "Audio file is corrupted or invalid format"
      else if e.(code) =? MEDIA_ERR_SRC_NOT_SUPPORTED
      then lit "Audio format not supported"
      else lit "Audio error occurred - file may be temporarily unavailable"
  | None => lit "Audio file could not be loaded"
  end.

(** [handleAudioError], [error] being [e.currentTarget.error]. *)
Definition handleAudioError (error : option MediaError) : State -> State :=
  setIsPlaying false >>
  setIsLoadingAudio false >>
  setPlayPromiseRef None >>
  setAudioError (Some (audioErrorMessage error)).

(** [handleSeek] for a click at [clientX] on a bar whose bounding rectangle
    starts at [rectLeft] and is [width] wide.  When the assignment to
    [currentTime] throws, the handler ends there and [setCurrentTime] is not
    reached. *)
Definition handleSeek (clientX rectLeft width : float) (s : State) : State :=
  match s.(audioRef) with
  | None => s
  | Some a =>
      if Num.strictEq s.(duration) 0
         || isPlaceholderUrl (urlOrEmpty s.(audioUrl))
      then s
      else
        let clickX := (clientX - rectLeft)%float in
        let percentage := (clickX / width)%float in
        let newTime := (percentage * s.(duration))%float in
        match setMediaCurrentTime newTime a with
        | Some a' => (setAudioRef (Some a') >> setCurrentTime newTime) s
        | None => s
        end
  end.

(** [handleVolumeChange], [newVolume] being [parseFloat(e.target.value)], a
    value of the slider (between 0 and 1, which the [volume] setter takes). *)
Definition handleVolumeChange (newVolume : float) : State -> State :=
  setVolume newVolume >> withAudio (setMediaVolume newVolume).

Definition openAudioInNewTab (s : State) : State :=
  match s.(audioUrl) with
  | Some url =>
      if JS.truthy url && negb (isPlaceholderUrl url)
      then request (OpenTab url) s
      else s
  | None => s
  end.

(** *** [formatTime] *)

Section FormatTime.

Variable toStringOther : spec_float -> jsstring.

Definition formatTime (time : float) : jsstring :=
  if Num.isNaN time || negb (Num.isFinite time) then lit "0:00"
  else
    let minutes := Num.floor (Prim2SF (time / 60)) in
    let seconds := Num.floor (Num.remainder (Prim2SF time) 60) in
    Num.numberToString toStringOther minutes ++ lit ":" ++
    padStart0 2 (Num.numberToString toStringOther seconds).

End FormatTime.

(** *** Rendering and the life of the component *)

(** The [<audio>] element is part of the output only past the two early
    returns and for a URL that is not a placeholder. *)
Definition rendersAudio (url : option jsstring) (loading : bool) : bool :=
  negb loading && hasUrl url && negb (isPlaceholderUrl (urlOrEmpty url)).

(** The play button, the progress bar and the volume slider are rendered past
    the two early returns. *)
Definition rendersControls (s : State) : bool :=
  s.(mounted) && negb s.(isLoading) && hasUrl s.(audioUrl).

(** Commit: React attaches [audioRef] to the rendered element (a new element
    starts fetching its metadata, [preload="metadata"]) and detaches it when
    the element leaves the output.  An element that stays is kept with its
    state and takes the [crossOrigin] attribute of the new render; new
    [<source>] children do not make it load again. *)
Definition commitAudio (s : State) : State :=
  if rendersAudio s.(audioUrl) s.(isLoading) then
    let url := urlOrEmpty s.(audioUrl) in
    match s.(audioRef) with
    | Some a =>
        setAudioRef (Some (setCrossOrigin (renderedCrossOrigin url) a)) s
    | None =>
        request (MediaLoad url) (setAudioRef (Some (freshMedia url)) s)
    end
  else setAudioRef None s.

Definition sameUrl (u v : option jsstring) : bool :=
  match u, v with
  | Some a, Some b => streq a b
  | None, None => true
  | _, _ => false
  end.

(** The parent renders the player with new props: commit, then the effects
    whose dependency [audioUrl] changed. *)
Definition receiveProps (url : option jsstring) (loading : bool)
    (s : State) : State :=
  let changed := negb (sameUrl s.(audioUrl) url) in
  let s := commitAudio (setIsLoading loading (setAudioUrl url s)) in
  if changed then testEffect (resetEffect s) else s.

(** The [useState] and [useRef] initial values, in a browser that has
    issued no timer yet. *)
Definition initial (url : option jsstring) (loading : bool) : State :=
  mkState url loading false 0 0 None false false 1 None None None ∅ 1%positive
          [] true.

(** First render: commit, then both effects. *)
Definition mount (url : option jsstring) (loading : bool) : State :=
  testEffect (resetEffect (commitAudio (initial url loading))).

(** Unmount: the refs are detached; the component registers no cleanup. *)
Definition unmount : State -> State :=
  setAudioRef None >> setMounted false.

(** What can happen to a player: new props from the parent, clicks on the
    rendered controls, the settling of the promises [togglePlay] and
    [testAudioUrl] wait for, firings of an interval, events of the media
    element, unmounting.  The media events carry what the browser changed in
    the element before it called the handler ([MediaState] is a change for
    which the component has no handler); [LoadResolved] carries the [volume]
    of the closure that goes on. *)
Inductive Event :=
| Props (url : option jsstring) (loading : bool)
| ClickPlay
| LoadResolved (volume : float)
| LoadRejected (error : Thrown)
| PlayResolved
| PlayRejected (error : Thrown)
| HeadSettled (response : option (bool * N))
| Tick (id : positive)
| TimeUpdate (t : float)
| LoadedMetadata (d : float)
| MediaState (ready network : N)
| Ended
| MediaErrorEvent (error : option MediaError)
| ClickBar (clientX rectLeft width : float)
| VolumeInput (v : float)
| ClickOpenDirect
| Unmount.

Definition step {b : Browser} (ev : Event) (s : State) : State :=
  match ev with
  | Props url loading =>
      if s.(mounted) then receiveProps url loading s else s
  | ClickPlay =>
      (* the button is [disabled={isLoadingAudio}] *)
      if rendersControls s && negb s.(isLoadingAudio) then togglePlay s else s
  | LoadResolved volume => togglePlayLoaded volume s
  | LoadRejected error => togglePlayCatch error s
  | PlayResolved => togglePlayStarted s
  | PlayRejected error => togglePlayCatch error s
  | HeadSettled response => testAudioUrlSettled response s
  | Tick id => intervalCallback id s
  | TimeUpdate t =>
      match s.(audioRef) with
      | Some a => handleTimeUpdate (setAudioRef (Some (mediaAt t a)) s)
      | None => s
      end
  | LoadedMetadata d =>
      match s.(audioRef) with
      | Some a => handleLoadedMetadata (setAudioRef (Some (mediaMetadata d a)) s)
      | None => s
      end
  | MediaState ready network => withAudio (mediaState ready network) s
  | Ended =>
      match s.(audioRef) with
      | Some a => handleEnded (setAudioRef (Some (mediaEnded a)) s)
      | None => s
      end
  | MediaErrorEvent error =>
      match s.(audioRef) with
      | Some _ => handleAudioError error s
      | None => s
      end
  | ClickBar clientX rectLeft width =>
      if rendersControls s then handleSeek clientX rectLeft width s else s
  | VolumeInput v =>
      if rendersControls s then handleVolumeChange v s else s
  | ClickOpenDirect =>
      if rendersControls s then openAudioInNewTab s else s
  | Unmount => unmount s
  end.

Definition run {b : Browser} (evs : list Event) (s : State) : State :=
  fold_left (fun s ev => step ev s) evs s.

(** The number of sources that advance the elapsed time: the active
    intervals and the media element when it plays. *)
Definition drivers (s : State) : nat :=
  size s.(timers) +
  match s.(audioRef) with
  | Some a => if mediaPlaying a then 1 else 0
  | None => 0
  end.

(** The states of the component, read off its flags.  The flags do not tell
    apart the resting states (ready, paused, ended): [stopCurrentPlayback]
    and the end of playback both rewind to 0.  Loading is the wait of
    [togglePlay] for the media ([isLoadingAudio]); the [isLoading] prop tells
    that the studio is generating speech and is no state of the player. *)
Inductive Phase := Empty | Loading | Playing | Resting | Failed.

Definition phase (s : State) : Phase :=
  if negb (hasUrl s.(audioUrl)) then Empty
  else if s.(isLoadingAudio) then Loading
  else match s.(audioError) with
       | Some _ => Failed
       | None => if s.(isPlaying) then Playing else Resting
       end.

(** The reason codes of the specification carried by the messages of the two
    error handlers; the other messages carry none. *)
Inductive Reason :=
| Aborted | Network | Decode | Unsupported | BlockedByPolicy | Timeout.

Definition reasons : list (jsstring * Reason) :=
  [ (lit "Audio loading was aborted", Aborted);
    (lit "Network error while loading audio - check your connection", Network);
    (lit "Audio file is corrupted or invalid format", Decode);
    (lit "Audio format not supported", Unsupported);
    (lit "Playback was interrupted. Please try again.", Aborted);
    (lit "CORS error - audio may still be accessible via direct link",
     BlockedByPolicy);
    (lit "Audio loading timed out - the file may be large or server slow",
     Timeout);
    (lit "Audio format not supported by your browser", Unsupported);
    (lit "Audio playback blocked. Click to enable audio", BlockedByPolicy);
    (lit "Network error: Unable to load audio file", Network) ].

Fixpoint reasonIn (table : list (jsstring * Reason)) (msg : jsstring)
    : option Reason :=
  match table with
  | [] => None
  | (m, r) :: table' => if streq m msg then Some r else reasonIn table' msg
  end.

Definition reasonOf (s : State) : option Reason :=
  match s.(audioError) with
  | Some msg => reasonIn reasons msg
  | None => None
  end.

End Player.

(* ===================================================================== *)
(** ** The earlier player ([frontend/src/components/AudioPlayer.tsx]) *)
(* ===================================================================== *)

Module Legacy.

Import Url.

Record State := mkState {
  (* props *)
  audioUrl : option jsstring;
  isLoading : bool;
  (* useState cells *)
  isPlaying : bool;
  duration : float;
  currentTime : float;
  audioError : option jsstring;
  isLoadingAudio : bool;
  (* useRef box *)
  audioRef : option Player.Media;
  (* the browser: the active intervals with their [progress], the intervals
     that a pending 10 s timeout will clear, the next timer id *)
  timers : gmap positive float;
  timeouts : list positive;
  nextTimer : positive
}.

Definition setAudioUrl (v : option jsstring) (s : State) : State :=
  mkState v (s.(isLoading)) (s.(isPlaying)) (s.(duration)) (s.(currentTime))
    (s.(audioError)) (s.(isLoadingAudio)) (s.(audioRef)) (s.(timers))
    (s.(timeouts)) (s.(nextTimer)).
Definition setIsLoading (v : bool) (s : State) : State :=
  mkState (s.(audioUrl)) v (s.(isPlaying)) (s.(duration)) (s.(currentTime))
    (s.(audioError)) (s.(isLoadingAudio)) (s.(audioRef)) (s.(timers))
    (s.(timeouts)) (s.(nextTimer)).
Definition setIsPlaying (v : bool) (s : State) : State :=
  mkState (s.(audioUrl)) (s.(isLoading)) v (s.(duration)) (s.(currentTime))
    (s.(audioError)) (s.(isLoadingAudio)) (s.(audioRef)) (s.(timers))
    (s.(timeouts)) (s.(nextTimer)).
Definition setDuration (v : float) (s : State) : State :=
  mkState (s.(audioUrl)) (s.(isLoading)) (s.(isPlaying)) v (s.(currentTime))
    (s.(audioError)) (s.(isLoadingAudio)) (s.(audioRef)) (s.(timers))
    (s.(timeouts)) (s.(nextTimer)).
Definition setCurrentTime (v : float) (s : State) : State :=
  mkState (s.(audioUrl)) (s.(isLoading)) (s.(isPlaying)) (s.(duration)) v
    (s.(audioError)) (s.(isLoadingAudio)) (s.(audioRef)) (s.(timers))
    (s.(timeouts)) (s.(nextTimer)).
Definition setAudioError (v : option jsstring) (s : State) : State :=
  mkState (s.(audioUrl)) (s.(isLoading)) (s.(isPlaying)) (s.(duration))
    (s.(currentTime)) v (s.(isLoadingAudio)) (s.(audioRef)) (s.(timers))
    (s.(timeouts)) (s.(nextTimer)).
Definition setIsLoadingAudio (v : bool) (s : State) : State :=
  mkState (s.(audioUrl)) (s.(isLoading)) (s.(isPlaying)) (s.(duration))
    (s.(currentTime)) (s.(audioError)) v (s.(audioRef)) (s.(timers))
    (s.(timeouts)) (s.(nextTimer)).
Definition setAudioRef (v : option Player.Media) (s : State) : State :=
  mkState (s.(audioUrl)) (s.(isLoading)) (s.(isPlaying)) (s.(duration))
    (s.(currentTime)) (s.(audioError)) (s.(isLoadingAudio)) v (s.(timers))
    (s.(timeouts)) (s.(nextTimer)).
Definition setTimers (v : gmap positive float) (s : State) : State :=
  mkState (s.(audioUrl)) (s.(isLoading)) (s.(isPlaying)) (s.(duration))
    (s.(currentTime)) (s.(audioError)) (s.(isLoadingAudio)) (s.(audioRef)) v
    (s.(timeouts)) (s.(nextTimer)).
Definition setTimeouts (v : list positive) (s : State) : State :=
  mkState (s.(audioUrl)) (s.(isLoading)) (s.(isPlaying)) (s.(duration))
    (s.(currentTime)) (s.(audioError)) (s.(isLoadingAudio)) (s.(audioRef))
    (s.(timers)) v (s.(nextTimer)).
Definition setNextTimer (v : positive) (s : State) : State :=
  mkState (s.(audioUrl)) (s.(isLoading)) (s.(isPlaying)) (s.(duration))
    (s.(currentTime)) (s.(audioError)) (s.(isLoadingAudio)) (s.(audioRef))
    (s.(timers)) (s.(timeouts)) v.

Definition andThen (f g : State -> State) : State -> State :=
  fun s => g (f s).
Infix ">>" := andThen (at level 55, right associativity).

(** "Reset playing state when audioUrl changes". *)
Definition resetEffect : State -> State :=
  setIsPlaying false >>
  setCurrentTime 0 >>
  setDuration 0 >>
  setAudioError None.

(** The [<audio>] element is rendered past the early returns when the URL
    is not a mock URL. *)
Definition rendersAudio (url : option jsstring) (loading : bool) : bool :=
  negb loading && Player.hasUrl url && negb (isMockUrl (Player.urlOrEmpty url)).

(** [togglePlay] up to its [await] (the mock branch has none). *)
Definition togglePlay (s : State) : State :=
  match s.(audioRef) with
  | None => s
  | Some a =>
      if negb (Player.hasUrl s.(audioUrl)) then s
      else
        let url := Player.urlOrEmpty s.(audioUrl) in
        let s := setAudioError None s in
        if s.(isPlaying)
        then setIsPlaying false (setAudioRef (Some (Player.pause a)) s)
        else
          let s := setIsLoadingAudio true s in
          if includes url (lit "mock-audio-service.com")
             || includes url (lit "placeholder_")
          then
            let s := (setIsLoadingAudio false >> setIsPlaying true >>
                      setDuration 10) s in
            let interval := s.(nextTimer) in
            (setTimers (<[interval := 0%float]> (s.(timers))) >>
             setTimeouts (s.(timeouts) ++ [interval]) >>
             setNextTimer (Pos.succ (Pos.succ interval))) s
          else s (* [audio.load()], then the wait for [canplay] *)
  end.

(** One firing of the mock interval [interval]. *)
Definition intervalCallback (interval : positive) (s : State) : State :=
  match s.(timers) !! interval with
  | None => s
  | Some p =>
      let progress := (p + 0.5)%float in
      let s := setTimers (<[interval := progress]> (s.(timers))) s in
      let s := setCurrentTime progress s in
      if Num.geb progress 10 then
        (setIsPlaying false >> setCurrentTime 0 >>
         setTimers (delete interval (s.(timers)))) s
      else s
  end.

(** The 10 s timeout of the mock branch fires. *)
Definition timeoutCallback (s : State) : State :=
  match s.(timeouts) with
  | [] => s
  | interval :: rest =>
      (setTimers (delete interval (s.(timers))) >> setTimeouts rest) s
  end.

Definition handleAudioError : State -> State :=
  setIsPlaying false >>
  setIsLoadingAudio false >>
  setAudioError (Some (lit "Audio file could not be loaded")).

(** When the assignment to [currentTime] throws, [setCurrentTime] is not
    reached. *)
Definition handleSeek (clientX rectLeft width : float) (s : State) : State :=
  match s.(audioRef) with
  | None => s
  | Some a =>
      if Num.strictEq s.(duration) 0 then s
      else
        let clickX := (clientX - rectLeft)%float in
        let percentage := (clickX / width)%float in
        let newTime := (percentage * s.(duration))%float in
        match Player.setMediaCurrentTime newTime a with
        | Some a' => (setAudioRef (Some a') >> setCurrentTime newTime) s
        | None => s
        end
  end.

(** After a commit [audioRef] holds no element unless one is rendered. *)
Definition committed (s : State) : Prop :=
  rendersAudio s.(audioUrl) s.(isLoading) = false -> s.(audioRef) = None.

(** The element as React creates it: no [src] and no [crossOrigin]
    attribute. *)
Definition freshMedia : Player.Media :=
  Player.mkMedia true false 0 nan None 1 None
                 Player.HAVE_NOTHING Player.NETWORK_LOADING.

(** Commit: [audioRef] is attached to the rendered element and detached when
    none is rendered. *)
Definition commitAudio (s : State) : State :=
  if rendersAudio s.(audioUrl) s.(isLoading) then
    match s.(audioRef) with
    | Some _ => s
    | None => setAudioRef (Some freshMedia) s
    end
  else setAudioRef None s.

(** The [useState] and [useRef] initial values. *)
Definition initial (url : option jsstring) (loading : bool) : State :=
  mkState url loading false 0 0 None false None ∅ [] 1%positive.

(** First render: commit, then the effect. *)
Definition mount (url : option jsstring) (loading : bool) : State :=
  resetEffect (commitAudio (initial url loading)).

(** *** [formatTime] of the earlier player *)

Section FormatTime.

Variable toStringOther : spec_float -> jsstring.

Definition formatTime (time : float) : jsstring :=
  if Num.isNaN time then lit "0:00"
  else
    let minutes := Num.floor (Prim2SF (time / 60)) in
    let seconds := Num.floor (Num.remainder (Prim2SF time) 60) in
    Num.numberToString toStringOther minutes ++ lit ":" ++
    padStart0 2 (Num.numberToString toStringOther seconds).

End FormatTime.

End Legacy.

(* ===================================================================== *)
(** ** The voice studio: the client end of the channel *)
(* ===================================================================== *)

Module Studio.

(** [WebSocket.readyState]. *)
Inductive ReadyState := CONNECTING | OPEN | CLOSING | CLOSED.

(** The objects [generateSpeech] and [handleCharacterChange] serialise. *)
Inductive ClientMessage :=
| VoiceRequest (text character_id : jsstring)
| CharacterSwitch (character_id : jsstring).

Record WebSocket := mkWebSocket {
  readyState : ReadyState;
  sent : list ClientMessage
}.

Record VoiceResult := mkVoiceResult {
  audio_url : jsstring;
  primary_emotion : jsstring;
  confidence : float;
  character_id : jsstring;
  resultText : jsstring
}.

Inductive ConnectionStatus := Connecting | Connected | Disconnected.

(** What [onmessage] finds in [event.data]: JSON whose [type] is
    ['voice_response'] or ['character_switched'], other JSON on which
    [data.type] can be read, JSON for [null] (reading [data.type] throws), or
    a text [JSON.parse] throws on. *)
Inductive ServerMessage :=
| VoiceResponse (r : VoiceResult)
| CharacterSwitched (character : jsstring)
| OtherType
| JsonNull
| NotJson.

Record State := mkState {
  (* useState cells; [ws] tells whether the cell holds the socket *)
  text : jsstring;
  selectedCharacter : jsstring;
  isGenerating : bool;
  lastResult : option VoiceResult;
  ws : bool;
  connectionStatus : ConnectionStatus;
  (* the socket the connection effect created, and the alerts shown *)
  socket : WebSocket;
  alerts : list jsstring
}.

Definition setText (v : jsstring) (s : State) : State :=
  mkState v (s.(selectedCharacter)) (s.(isGenerating)) (s.(lastResult))
    (s.(ws)) (s.(connectionStatus)) (s.(socket)) (s.(alerts)).
Definition setSelectedCharacter (v : jsstring) (s : State) : State :=
  mkState (s.(text)) v (s.(isGenerating)) (s.(lastResult)) (s.(ws))
    (s.(connectionStatus)) (s.(socket)) (s.(alerts)).
Definition setIsGenerating (v : bool) (s : State) : State :=
  mkState (s.(text)) (s.(selectedCharacter)) v (s.(lastResult)) (s.(ws))
    (s.(connectionStatus)) (s.(socket)) (s.(alerts)).
Definition setLastResult (v : option VoiceResult) (s : State) : State :=
  mkState (s.(text)) (s.(selectedCharacter)) (s.(isGenerating)) v (s.(ws))
    (s.(connectionStatus)) (s.(socket)) (s.(alerts)).
Definition setWs (v : bool) (s : State) : State :=
  mkState (s.(text)) (s.(selectedCharacter)) (s.(isGenerating))
    (s.(lastResult)) v (s.(connectionStatus)) (s.(socket)) (s.(alerts)).
Definition setConnectionStatus (v : ConnectionStatus) (s : State) : State :=
  mkState (s.(text)) (s.(selectedCharacter)) (s.(isGenerating))
    (s.(lastResult)) (s.(ws)) v (s.(socket)) (s.(alerts)).
Definition setSocket (v : WebSocket) (s : State) : State :=
  mkState (s.(text)) (s.(selectedCharacter)) (s.(isGenerating))
    (s.(lastResult)) (s.(ws)) (s.(connectionStatus)) v (s.(alerts)).
Definition setAlerts (v : list jsstring) (s : State) : State :=
  mkState (s.(text)) (s.(selectedCharacter)) (s.(isGenerating))
    (s.(lastResult)) (s.(ws)) (s.(connectionStatus)) (s.(socket)) v.

Definition andThen (f g : State -> State) : State -> State :=
  fun s => g (f s).
Infix ">>" := andThen (at level 55, right associativity).

Definition isOpen (w : WebSocket) : bool :=
  match w.(readyState) with OPEN => true | _ => false end.

(** [ws.send(JSON.stringify(m))] on the socket held by [ws]. *)
Definition send (m : ClientMessage) (s : State) : State :=
  setSocket (mkWebSocket s.(socket).(readyState) (s.(socket).(sent) ++ [m])) s.

Definition alert (msg : jsstring) (s : State) : State :=
  setAlerts (s.(alerts) ++ [msg]) s.

Definition initial : State :=
  mkState [] (lit "narrator") false None false Connecting
          (mkWebSocket CONNECTING []) [].

(** [generateSpeech]; [send] on an open socket does not throw, so the
    [catch] block is not entered. *)
Definition generateSpeech (s : State) : State :=
  if negb (JS.truthy (trim s.(text)))
  then alert (lit "Please enter some text first!") s
  else if negb s.(ws) || negb (isOpen s.(socket))
  then alert (lit "WebSocket connection is not available. Please refresh the page.") s
  else
    (setIsGenerating true >>
     send (VoiceRequest (trim s.(text)) s.(selectedCharacter))) s.

Definition handleCharacterChange (characterId : jsstring) (s : State) : State :=
  let s := setSelectedCharacter characterId s in
  if s.(ws) && isOpen s.(socket)
  then send (CharacterSwitch characterId) s
  else s.

Definition onopen : State -> State :=
  (fun s => setSocket (mkWebSocket OPEN s.(socket).(sent)) s) >>
  setWs true >>
  setConnectionStatus Connected.

Definition onmessage (m : ServerMessage) : State -> State :=
  match m with
  | VoiceResponse r => setLastResult (Some r) >> setIsGenerating false
  | CharacterSwitched _ => fun s => s
  | OtherType => fun s => s
  | JsonNull => setIsGenerating false   (* the [catch] block *)
  | NotJson => setIsGenerating false    (* the [catch] block *)
  end.

Definition onerror : State -> State :=
  setConnectionStatus Disconnected >> setIsGenerating false.

Definition onclose : State -> State :=
  (fun s => setSocket (mkWebSocket CLOSED s.(socket).(sent)) s) >>
  setConnectionStatus Disconnected >>
  setIsGenerating false.

Inductive Event :=
| Open
| Message (m : ServerMessage)
| Error
| Close
| TypeText (t : jsstring)
| ClickGenerate
| SelectCharacter (characterId : jsstring).

Definition step (ev : Event) (s : State) : State :=
  match ev with
  | Open => onopen s
  | Message m => onmessage m s
  | Error => onerror s
  | Close => onclose s
  | TypeText t => setText t s
  | ClickGenerate => generateSpeech s
  | SelectCharacter c => handleCharacterChange c s
  end.

(** *** The rendered controls *)

(** The "Generate Speech" button is
    [disabled={isGenerating || !text.trim() || connectionStatus !== 'connected'}]. *)
Definition generateDisabled (s : State) : bool :=
  s.(isGenerating) || negb (JS.truthy (trim s.(text)))
  || negb (match s.(connectionStatus) with Connected => true | _ => false end).

(** The events as the rendered page delivers them: a click on a disabled
    button runs no handler.  [TypeText] stands for every write to the script
    (typing, a quick action, a generated dialogue). *)
Definition uiStep (ev : Event) (s : State) : State :=
  match ev with
  | ClickGenerate => if generateDisabled s then s else generateSpeech s
  | _ => step ev s
  end.

Definition uiRun (evs : list Event) (s : State) : State :=
  fold_left (fun s ev => uiStep ev s) evs s.

End Studio.

(* ===================================================================== *)
(** ** The studio with its player *)
(* ===================================================================== *)

Module App.

Record State := mkState {
  studio : Studio.State;
  player : Player.State
}.

(** The props the studio passes down:
    [audioUrl={lastResult?.audio_url} isLoading={isGenerating}]. *)
Definition audioUrlProp (s : Studio.State) : option jsstring :=
  match s.(Studio.lastResult) with
  | Some r => Some r.(Studio.audio_url)
  | None => None
  end.

(** An event of the player: its handlers see the player's own state only. *)
Definition playerEvent {b : Player.Browser} (ev : Player.Event) (a : State)
    : State :=
  mkState a.(studio) (Player.step ev a.(player)).

(** An event of the studio, followed by the re-render of the player. *)
Definition studioEvent {b : Player.Browser} (ev : Studio.Event) (a : State)
    : State :=
  let s := Studio.step ev a.(studio) in
  mkState s
    (Player.step (Player.Props (audioUrlProp s) s.(Studio.isGenerating))
                 a.(player)).

End App.

(* ===================================================================== *)
(** ** The emotion visualizer *)
(* ===================================================================== *)

Module Visualizer.

(** What [colors[emotion]] evaluates to: a string of the table, a member
    inherited from [Object.prototype] (a function, or the prototype itself
    for [__proto__]), or [undefined]. *)
Inductive Value :=
| Str (s : jsstring)
| Inherited (name : jsstring)
| Undefined.

(** The own properties of the [colors] object literal. *)
Definition colors : list (jsstring * jsstring) :=
  [ (lit "happy", lit "bg-yellow-500");
    (lit "sad", lit "bg-blue-500");
    (lit "angry", lit "bg-red-500");
    (lit "excited", lit "bg-orange-500");
    (lit "calm", lit "bg-green-500");
    (lit "fear", lit "bg-purple-500");
    (lit "surprise", lit "bg-pink-500");
    (lit "neutral", lit "bg-gray-500") ].

(** The property names of [Object.prototype]. *)
Definition objectPrototype : list jsstring :=
  [ lit "constructor"; lit "hasOwnProperty"; lit "isPrototypeOf";
    lit "propertyIsEnumerable"; lit "toLocaleString"; lit "toString";
    lit "valueOf"; lit "__proto__"; lit "__defineGetter__";
    lit "__defineSetter__"; lit "__lookupGetter__"; lit "__lookupSetter__" ].

Fixpoint own (table : list (jsstring * jsstring)) (key : jsstring)
    : option jsstring :=
  match table with
  | [] => None
  | (k, v) :: table' => if streq k key then Some v else own table' key
  end.

(** [colors[key]]: own properties first, then the prototype. *)
Definition get (key : jsstring) : Value :=
  match own colors key with
  | Some v => Str v
  | None => if existsb (streq key) objectPrototype then Inherited key
            else Undefined
  end.

(** [getEmotionColor]: [colors[emotion] || 'bg-gray-500']. *)
Definition getEmotionColor (emotion : jsstring) : Value :=
  match get emotion with
  | Str v => if JS.truthy v then Str v else Str (lit "bg-gray-500")
  | Inherited name => Inherited name
  | Undefined => Str (lit "bg-gray-500")
  end.

End Visualizer.

(* ===================================================================== *)
(** ** Notions used to state the properties *)
(* ===================================================================== *)

Module Spec.

Import Url Player.

(** A string that is empty or starts with a code unit [trim] keeps. *)
Definition cleanHead (l : jsstring) : Prop :=
  match l with [] => True | c :: _ => isWhiteSpace c = false end.

(** The decoded form of a small non-negative integer. *)
Definition ofSmall (q : Z) : spec_float :=
  match q with
  | Z.pos n => S754_finite false n 0
  | _ => S754_zero false
  end.

(** A number that is finite and not negative ([-0] included). *)
Definition nonNegativeFinite (t : float) : bool :=
  match Prim2SF t with
  | S754_zero _ | S754_finite false _ _ => true
  | _ => false
  end.

(** The integer part of a finite number that is not negative, computed
    exactly. *)
Definition wholePart (t : float) : Z :=
  match Prim2SF t with
  | S754_finite false m e =>
      if (0 <=? e)%Z then (Z.pos m * 2 ^ e)%Z else (Z.pos m / 2 ^ (- e))%Z
  | _ => 0%Z
  end.

(** The two decimal digits of a number below 100. *)
Definition twoDigits (n : Z) : jsstring :=
  [48 + Z.to_N (n / 10); 48 + Z.to_N (n mod 10)].

(** The elapsed time the placeholder simulation shows after [n] firings of
    its interval. *)
Fixpoint progressAfter (n : nat) : float :=
  match n with
  | O => 0%float
  | S k => (progressAfter k + 0.1)%float
  end.

(** [n] firings of the interval [id] in a row. *)
Definition ticks (id : positive) (n : nat) : list Event := repeat (Tick id) n.

(** The cells and refs written by the reset effect hold their initial
    values, and the media element, if any, is paused at 0. *)
Definition isReset (s : State) : Prop :=
  s.(isPlaying) = false /\ s.(currentTime) = 0%float /\
  s.(duration) = 0%float /\ s.(audioError) = None /\
  s.(isLoadingAudio) = false /\ s.(simulationIntervalRef) = None /\
  s.(playPromiseRef) = None /\
  (forall a, s.(audioRef) = Some a ->
             a.(paused) = true /\ a.(position) = 0%float).

(** The reason code of a [MediaError] code. *)
Definition reasonOfCode (c : N) : option Reason :=
  if c =? MEDIA_ERR_ABORTED then Some Aborted
  else if c =? MEDIA_ERR_NETWORK then Some Network
  else if c =? MEDIA_ERR_DECODE then Some Decode
  else if c =? MEDIA_ERR_SRC_NOT_SUPPORTED then Some Unsupported
  else None.

(** [s'] differs from [s] at most in the playing flag, the loading flag, the
    error message and the pending play promise. *)
Definition sameOutsideErrorState (s s' : State) : Prop :=
  s'.(audioUrl) = s.(audioUrl) /\ s'.(isLoading) = s.(isLoading) /\
  s'.(duration) = s.(duration) /\ s'.(currentTime) = s.(currentTime) /\
  s'.(audioTested) = s.(audioTested) /\ s'.(volume) = s.(volume) /\
  s'.(audioRef) = s.(audioRef) /\
  s'.(simulationIntervalRef) = s.(simulationIntervalRef) /\
  s'.(timers) = s.(timers) /\ s'.(nextTimer) = s.(nextTimer) /\
  s'.(network) = s.(network) /\ s'.(mounted) = s.(mounted).

(** The events that run an error handler of the player. *)
Definition isErrorEvent (ev : Event) : bool :=
  match ev with
  | MediaErrorEvent _ | LoadRejected _ | PlayRejected _ => true
  | _ => false
  end.

(** The invariant of the player: the only interval that can be active is
    the one [simulationIntervalRef] holds, it is active only under a
    placeholder URL, and [audioRef] holds an element only when one is
    rendered. *)
Definition timersOk (s : State) : Prop :=
  (s.(simulationIntervalRef) = None /\ s.(timers) = ∅) \/
  (exists id p,
     s.(simulationIntervalRef) = Some id /\ s.(timers) = {[ id := p ]} /\
     isPlaceholderUrl (urlOrEmpty s.(audioUrl)) = true).

Definition refOk (s : State) : Prop :=
  forall a, s.(audioRef) = Some a ->
            rendersAudio s.(audioUrl) s.(isLoading) = true.

Definition Inv (s : State) : Prop := timersOk s /\ refOk s.

(** The timers left once the interval of [simulationIntervalRef] is
    cleared. *)
Definition clearedTimers (s : State) : gmap positive float :=
  match s.(simulationIntervalRef) with
  | Some id => delete id s.(timers)
  | None => s.(timers)
  end.

(** The interval of [simulationIntervalRef], if any, is the only active
    one. *)
Definition timersShape (s : State) : Prop :=
  (s.(simulationIntervalRef) = None /\ s.(timers) = ∅) \/
  (exists id p,
     s.(simulationIntervalRef) = Some id /\ s.(timers) = {[ id := p ]}).

(** [s'] has the URL, the timers and the timer ref of [s], and no media
    element that [s] had not. *)
Definition sameCore (s s' : State) : Prop :=
  s'.(audioUrl) = s.(audioUrl) /\ s'.(isLoading) = s.(isLoading) /\
  s'.(simulationIntervalRef) = s.(simulationIntervalRef) /\
  s'.(timers) = s.(timers) /\
  (s.(audioRef) = None -> s'.(audioRef) = None).

(** [s'] is [s] with the interval of [simulationIntervalRef] cleared. *)
Definition clears (s s' : State) : Prop :=
  s'.(audioUrl) = s.(audioUrl) /\ s'.(isLoading) = s.(isLoading) /\
  s'.(simulationIntervalRef) = None /\
  s'.(timers) = clearedTimers s /\
  (s.(audioRef) = None -> s'.(audioRef) = None).

(** The simulation of interval [id] has fired [n] times and goes on, the
    requests issued so far being [nw]. *)
Definition running (nw : list Request) (id : positive) (n : nat)
    (s : State) : Prop :=
  s.(timers) !! id = Some (progressAfter n) /\
  s.(simulationIntervalRef) = Some id /\
  phase s = Playing /\
  (0 < n -> s.(currentTime) = progressAfter n)%nat /\
  s.(network) = nw.

(** The messages an event of the studio adds to the channel. *)
Definition newlySent (s s' : Studio.State) (new : list Studio.ClientMessage)
    : Prop :=
  s'.(Studio.socket).(Studio.sent) = s.(Studio.socket).(Studio.sent) ++ new.

(** The message of [togglePlay] for a missing URL. *)
Definition noUrlMessage : jsstring := lit "No audio URL available".

(** A reference that needs no network: none, the empty string or a
    placeholder URL. *)
Definition quietUrl (u : option jsstring) : bool :=
  negb (hasUrl u) || isPlaceholderUrl (urlOrEmpty u).

Definition quietEvent (ev : Event) : bool :=
  match ev with
  | Props u _ => quietUrl u
  | _ => true
  end.

(** The URLs [testAudioUrl] probes with a HEAD request. *)
Definition probed (u : jsstring) : bool :=
  JS.truthy u && negb (isPlaceholderUrl u) && negb (isMurfUrl u).

(** The number of [voice_request] messages among the messages sent. *)
Fixpoint voiceRequests (l : list Studio.ClientMessage) : nat :=
  match l with
  | [] => 0
  | Studio.VoiceRequest _ _ :: l' => S (voiceRequests l')
  | _ :: l' => voiceRequests l'
  end.

(** The events of the studio that clear [isGenerating]: a voice response,
    a message that is JSON for [null] or is not JSON, a socket error, the
    close of the socket. *)
Definition settles (ev : Studio.Event) : bool :=
  match ev with
  | Studio.Message (Studio.VoiceResponse _)
  | Studio.Message Studio.JsonNull | Studio.Message Studio.NotJson
  | Studio.Error | Studio.Close => true
  | _ => false
  end.

Fixpoint settled (evs : list Studio.Event) : nat :=
  match evs with
  | [] => 0
  | ev :: evs' => (if settles ev then 1 else 0) + settled evs'
  end.

(** The class names of the [colors] table. *)
Definition colorClasses : list jsstring := map snd Visualizer.colors.

(** [s'] has the requests, the volume and the error message of [s]. *)
Definition sameFields (s s' : State) : Prop :=
  s'.(network) = s.(network) /\ s'.(volume) = s.(volume) /\
  s'.(audioError) = s.(audioError).

(** The error shown is the one of [togglePlay] for a missing URL. *)
Definition noUrlShown (s : State) : bool :=
  match s.(audioError) with
  | Some m => streq m noUrlMessage
  | None => false
  end.

(** A player that has issued no request, holds a reference that needs none
    and has no media element. *)
Definition quiet (s : State) : Prop :=
  s.(network) = [] /\ quietUrl s.(audioUrl) = true /\ s.(audioRef) = None.

(** [audio.src === url] *)
Definition hasSrc {b : Browser} (a : Media) (url : jsstring) : bool :=
  streq (srcOf a) url.

(** The element has no data for the current position and waits for a
    resource: the state in which the executor of [loadAudio] calls
    [audio.load()]. *)
Definition awaitsSource (a : Media) : bool :=
  negb (HAVE_CURRENT_DATA <=? a.(readyState))
  && (a.(networkState) =? NETWORK_NO_SOURCE).

(** A click on play makes the element load [url]: its [src] does not read
    back as [url], or it waits for a resource. *)
Definition loadsOnPlay {b : Browser} (a : Media) (url : jsstring) : bool :=
  negb (hasSrc a url) || awaitsSource a.

(** A browser that reads every [src] back as it was assigned: the one of a
    page that is only given absolute URLs in serialised form. *)
Definition absoluteUrls : Browser := {| resolveUrl := fun u => u |}.

(** A browser that reads a [src] back with [base] in front: the one of a
    page at [base] that is given paths relative to it. *)
Definition underBase (base : jsstring) : Browser :=
  {| resolveUrl := fun u => base ++ u |}.

(** The rows of the [catch] block of [togglePlay] for an [Error], in the
    order in which they are tried: what a row tests (one of some words in the
    lower-cased message, or the name of the error), the message it shows and
    the reason code that message carries. *)
Inductive Test :=
| Mentions (words : list string)
| Named (name : string).

Definition catchRows : list (Test * string * Reason) :=
  [ (Mentions ["interrupted"; "aborted"]%string,
     "Playback was interrupted. Please try again."%string, Aborted);
    (Mentions ["cors"; "cross-origin"]%string,
     "CORS error - audio may still be accessible via direct link"%string,
     BlockedByPolicy);
    (Mentions ["timeout"]%string,
     "Audio loading timed out - the file may be large or server slow"%string,
     Timeout);
    (Named "NotSupportedError",
     "Audio format not supported by your browser"%string, Unsupported);
    (Named "NotAllowedError",
     "Audio playback blocked. Click to enable audio"%string, BlockedByPolicy);
    (Mentions ["network"; "fetch"]%string,
     "Network error: Unable to load audio file"%string, Network) ].

Definition passes (t : Test) (name msg : jsstring) : bool :=
  match t with
  | Mentions words =>
      existsb (fun w => includes (toLowerCase msg) (lit w)) words
  | Named n => streq name (lit n)
  end.

(** The first row whose test the error passes. *)
Fixpoint firstRow (rows : list (Test * string * Reason)) (name msg : jsstring)
    : option (string * Reason) :=
  match rows with
  | [] => None
  | (t, m, r) :: rows' =>
      if passes t name msg then Some (m, r) else firstRow rows' name msg
  end.

(** The number a text of decimal digits denotes, read from the left with
    [acc] for the digits read so far; [None] when the text has another
    character. *)
Fixpoint readDigits (text : jsstring) (acc : N) : option N :=
  match text with
  | [] => Some acc
  | c :: text' =>
      if (48 <=? c) && (c <=? 57) then readDigits text' (10 * acc + (c - 48))
      else None
  end.

(** [text] is the decimal numeral of [n]: its digits denote [n], there is
    at least one, and the first is 0 only for the numeral ["0"]. *)
Definition numeralOf (text : jsstring) (n : N) : Prop :=
  readDigits text 0 = Some n /\
  (text = lit "0" \/ exists c text', text = c :: text' /\ c <> 48).

(** 1 while the studio is not generating, 0 while it is. *)
Definition idle (s : Studio.State) : nat :=
  if s.(Studio.isGenerating) then 0 else 1.

End Spec.

(* ===================================================================== *)
(** * Properties *)
(* ===================================================================== *)

Import Url.

Arguments Url.isPlaceholderUrl : simpl never.
Arguments Url.isMurfUrl : simpl never.
Arguments Url.isMockUrl : simpl never.

(* ===================================================================== *)
(** ** Strings *)
(* ===================================================================== *)

Section Strings.

Implicit Types s t p q l : jsstring.



Lemma streq_eq s t : streq s t = true <-> s = t.
Proof.
  revert t; induction s as [|c s IH]; intros [|d t]; simpl; try easy.
  rewrite andb_true_iff, N.eqb_eq, IH.
  split; [intros [-> ->]; easy | intros [= -> ->]; easy].
Qed.

Lemma truthy_nonempty s : JS.truthy s = true <-> s <> [].
Proof. destruct s; simpl; split; easy. Qed.

Lemma trimStart_cleanHead s : Spec.cleanHead (trimStart s).
Proof.
  induction s as [|c s IH]; simpl; [easy|].
  destruct (isWhiteSpace c) eqn:E; [exact IH | exact E].
Qed.

Lemma trimStart_id l : Spec.cleanHead l -> trimStart l = l.
Proof. destruct l as [|c l]; simpl; [easy|]. intros ->. reflexivity. Qed.

Lemma trimStart_snoc l c :
  isWhiteSpace c = false -> exists l', trimStart (l ++ [c]) = l' ++ [c].
Proof.
  intros Hc. induction l as [|d l IH]; simpl.
  - rewrite Hc. exists []. reflexivity.
  - destruct (isWhiteSpace d); [exact IH|]. exists (d :: l). reflexivity.
Qed.

Lemma trimEnd_cleanHead l : Spec.cleanHead l -> Spec.cleanHead (trimEnd l).
Proof.
  destruct l as [|c l]; [easy|]. simpl. intros Hc. unfold trimEnd. simpl rev.
  destruct (trimStart_snoc (rev l) c Hc) as [l' ->].
  rewrite rev_app_distr. simpl. exact Hc.
Qed.

Lemma trimEnd_idem l : trimEnd (trimEnd l) = trimEnd l.
Proof.
  unfold trimEnd. rewrite rev_involutive.
  rewrite (trimStart_id (trimStart (rev l))); [easy | apply trimStart_cleanHead].
Qed.

Lemma trim_idem s : trim (trim s) = trim s.
Proof.
  unfold trim.
  rewrite (trimStart_id (trimEnd (trimStart s))).
  - apply trimEnd_idem.
  - apply trimEnd_cleanHead, trimStart_cleanHead.
Qed.

Lemma placeholder_truthy url :
  isPlaceholderUrl url = true -> JS.truthy url = true.
Proof. destruct url; [vm_compute; discriminate | reflexivity]. Qed.

Lemma mock_truthy url : isMockUrl url = true -> JS.truthy url = true.
Proof. destruct url; [vm_compute; discriminate | reflexivity]. Qed.

End Strings.

Arguments JS.includes : simpl never.
Arguments JS.lit : simpl never.

(* ===================================================================== *)
(** ** The two URL classifications *)
(* ===================================================================== *)

(** The mock branch of the earlier [togglePlay] needs an [<audio>] element
    that is never rendered for a mock URL. *)
Lemma legacy_togglePlay_mock_dead (s : Legacy.State) :
  Legacy.committed s ->
  isMockUrl (Player.urlOrEmpty s.(Legacy.audioUrl)) = true ->
  Legacy.togglePlay s = s.
Proof.
  intros Hc Hm. unfold Legacy.togglePlay. rewrite Hc; [reflexivity|].
  unfold Legacy.rendersAudio. rewrite Hm. apply andb_false_r.
Qed.







(* ===================================================================== *)
(** ** The voice requests of the studio *)
(* ===================================================================== *)

Section VoiceRequests.

Lemma newlySent_nothing (s s' : Studio.State) :
  s'.(Studio.socket).(Studio.sent) = s.(Studio.socket).(Studio.sent) ->
  Spec.newlySent s s' [].
Proof. intros H. unfold Spec.newlySent. rewrite H, app_nil_r. reflexivity. Qed.

Lemma generateSpeech_sent (s : Studio.State) :
  Spec.newlySent s (Studio.generateSpeech s)
    (if JS.truthy (trim s.(Studio.text)) && s.(Studio.ws)
        && Studio.isOpen s.(Studio.socket)
     then [Studio.VoiceRequest (trim s.(Studio.text))
             s.(Studio.selectedCharacter)]
     else []).
Proof.
  unfold Studio.generateSpeech.
  destruct (JS.truthy (trim (Studio.text s))); cbn [negb andb];
    [|now apply newlySent_nothing].
  destruct (Studio.ws s); cbn [negb orb andb]; [|now apply newlySent_nothing].
  destruct (Studio.isOpen (Studio.socket s)); cbn [negb];
    [reflexivity | now apply newlySent_nothing].
Qed.

Lemma handleCharacterChange_sent (c : jsstring) (s : Studio.State) :
  Spec.newlySent s (Studio.handleCharacterChange c s)
    (if s.(Studio.ws) && Studio.isOpen s.(Studio.socket)
     then [Studio.CharacterSwitch c] else []).
Proof.
  unfold Studio.handleCharacterChange.
  change (Studio.ws (Studio.setSelectedCharacter c s)) with (Studio.ws s).
  change (Studio.socket (Studio.setSelectedCharacter c s))
    with (Studio.socket s).
  destruct (Studio.ws s && Studio.isOpen (Studio.socket s));
    [reflexivity | now apply newlySent_nothing].
Qed.

(** C4: whatever the studio does, the messages it adds to the channel
    contain a [voice_request] only on a click on "Generate Speech" with a
    text that is not empty once trimmed and an open channel; the request then
    is the only message added and is
    [{type: "voice_request", text: text.trim(), character_id: selectedCharacter}],
    its text being trimmed and not empty.  With an empty trimmed text or a
    channel that is not open nothing is sent. *)
Theorem voice_request_shape (ev : Studio.Event) (s : Studio.State) :
  exists new,
    Spec.newlySent s (Studio.step ev s) new /\
    (forall t c, In (Studio.VoiceRequest t c) new ->
       ev = Studio.ClickGenerate /\
       t = trim s.(Studio.text) /\ t <> [] /\ trim t = t /\
       c = s.(Studio.selectedCharacter) /\
       s.(Studio.ws) = true /\ Studio.isOpen s.(Studio.socket) = true) /\
    (ev = Studio.ClickGenerate ->
     new = if JS.truthy (trim s.(Studio.text)) && s.(Studio.ws)
              && Studio.isOpen s.(Studio.socket)
           then [Studio.VoiceRequest (trim s.(Studio.text))
                   s.(Studio.selectedCharacter)]
           else []).
Proof.
  destruct ev as [ |m| | |t| |c]; cbn [Studio.step];
    try (exists []; split; [apply newlySent_nothing; try destruct m; reflexivity|];
         split; [intros ? ? []|discriminate]).
  - eexists. split; [apply generateSpeech_sent|]. split; [|reflexivity].
    destruct (JS.truthy (trim (Studio.text s))) eqn:Ht; cbn [andb];
      [|intros ? ? []].
    destruct (Studio.ws s) eqn:Hw; cbn [andb]; [|intros ? ? []].
    destruct (Studio.isOpen (Studio.socket s)) eqn:Ho; [|intros ? ? []].
    intros t c [[= <- <-]|[]]. apply truthy_nonempty in Ht.
    repeat split; auto using trim_idem.
  - eexists. split; [apply handleCharacterChange_sent|]. split; [|discriminate].
    destruct (Studio.ws s && Studio.isOpen (Studio.socket s));
      [|intros ? ? []].
    intros t c' [H|[]]. discriminate H.
Qed.

(** The theorem above at a click on "Generate Speech" with the text
    ["  Hello!  "] and an open socket. *)
Lemma voice_request_shape_witness :
  let s := Studio.setText (lit "  Hello!  ") (Studio.onopen Studio.initial) in
  exists new,
    Spec.newlySent s (Studio.generateSpeech s) new /\
    new = [Studio.VoiceRequest (lit "Hello!") (lit "narrator")].
Proof.
  cbn zeta.
  destruct (voice_request_shape Studio.ClickGenerate
              (Studio.setText (lit "  Hello!  ")
                 (Studio.onopen Studio.initial)))
    as (new & Hsent & _ & Hnew).
  exists new. split; [exact Hsent|]. rewrite (Hnew eq_refl).
  vm_compute. reflexivity.
Defined.

End VoiceRequests.

(* ===================================================================== *)
(** ** [formatTime] *)
(* ===================================================================== *)

Lemma lit_String (c : ascii) (s : string) :
  lit (String c s) = N_of_ascii c :: lit s.
Proof. reflexivity. Qed.

Lemma readDigits_uint_acc (d : Decimal.uint) (acc : positive) :
  Spec.readDigits (lit (NilEmpty.string_of_uint d)) (N.pos acc)
  = Some (N.pos (Pos.of_uint_acc d acc)).
Proof.
  revert acc. induction d as [|d IH|d IH|d IH|d IH|d IH|d IH|d IH|d IH|d IH|d IH];
    intros acc; cbn [NilEmpty.string_of_uint Pos.of_uint_acc];
    [reflexivity|..]; rewrite lit_String; cbn [Spec.readDigits];
    match goal with
    | |- (if ?c then _ else _) = _ => change c with true; cbv iota
    end;
    rewrite <- IH; f_equal;
    try (match goal with
         | |- context [N_of_ascii ?c - 48] =>
             let v := eval vm_compute in (N_of_ascii c - 48) in
             change (N_of_ascii c - 48) with v
         end; lia).
Qed.

Lemma readDigits_uint (d : Decimal.uint) :
  Spec.readDigits (lit (NilEmpty.string_of_uint d)) 0 = Some (N.of_uint d).
Proof.
  induction d as [|d IH|d IH|d IH|d IH|d IH|d IH|d IH|d IH|d IH|d IH];
    cbn [NilEmpty.string_of_uint]; [reflexivity|..]; rewrite lit_String;
    cbn [Spec.readDigits];
    match goal with
    | |- (if ?c then _ else _) = _ => change c with true; cbv iota
    end;
    [exact IH|..]; apply readDigits_uint_acc.
Qed.

Lemma nzhead_shape (d : Decimal.uint) :
  Decimal.nzhead d = Decimal.Nil \/
  exists c text, lit (NilEmpty.string_of_uint (Decimal.nzhead d)) = c :: text
                 /\ c <> 48.
Proof.
  induction d as [|d IH|d IH|d IH|d IH|d IH|d IH|d IH|d IH|d IH|d IH];
    cbn [Decimal.nzhead]; [now left | exact IH|..];
    right; cbn [NilEmpty.string_of_uint]; rewrite lit_String;
    eexists _, _; (split; [reflexivity | vm_compute; discriminate]).
Qed.

(** The text [Num.decimal] prints for [n] is the decimal numeral of [n]. *)
Lemma decimal_numeral (n : N) : Spec.numeralOf (Num.decimal n) n.
Proof.
  unfold Spec.numeralOf, Num.decimal. split.
  - rewrite readDigits_uint. f_equal. apply DecimalN.Unsigned.of_to.
  - assert (E : N.to_uint n = Decimal.unorm (N.to_uint n)).
    { rewrite <- (DecimalN.Unsigned.to_of (N.to_uint n)).
      now rewrite DecimalN.Unsigned.of_to. }
    rewrite E. unfold Decimal.unorm.
    destruct (nzhead_shape (N.to_uint n)) as [H|(c & text & H & Hc)].
    + rewrite H. left. reflexivity.
    + right. exists c, text. split; [|exact Hc].
      destruct (Decimal.nzhead (N.to_uint n)); [|exact H..].
      discriminate H.
Qed.

Section FormatTimeFacts.

Variable toStringOther : spec_float -> jsstring.

Lemma small_digits (q : Z) :
  (0 <= q < 60)%Z ->
  padStart0 2 (Num.numberToString toStringOther (Spec.ofSmall q))
  = Spec.twoDigits q.
Proof.
  intros Hq.
  assert (Hn : exists n, (n < 60)%nat /\ q = Z.of_nat n).
  { exists (Z.to_nat q). split; lia. }
  destruct Hn as (n & Hn & ->). clear Hq.
  do 60 (destruct n as [|n]; [vm_compute; reflexivity|]).
  lia.
Qed.

Lemma floor_remainder_finite (m : positive) (e : Z) :
  let w := if (0 <=? e)%Z then (Z.pos m * 2 ^ e)%Z
           else (Z.pos m / 2 ^ (- e))%Z in
  Num.numberToString toStringOther
    (Num.floor (Num.remainder (S754_finite false m e) 60))
  = Num.numberToString toStringOther (Spec.ofSmall (w mod 60)).
Proof.
  cbn zeta. unfold Num.remainder.
  destruct (0 <=? e)%Z eqn:He.
  - pose proof (Z.mod_pos_bound (Z.pos m * 2 ^ e) 60 ltac:(lia)) as Hb.
    destruct ((Z.pos m * 2 ^ e) mod 60)%Z as [|r|r] eqn:Hr; try lia;
      reflexivity.
  - apply Z.leb_gt in He.
    set (k := (- e)%Z).
    assert (Hk : (0 < 2 ^ k)%Z) by (apply Z.pow_pos_nonneg; lia).
    assert (Hq : ((Z.pos m mod (60 * 2 ^ k)) / 2 ^ k
                  = (Z.pos m / 2 ^ k) mod 60)%Z).
    { rewrite (Z.mul_comm 60), Z.rem_mul_r by lia.
      rewrite (Z.mul_comm (2 ^ k)), Z.div_add by lia.
      rewrite Z.div_small; [lia|]. apply Z.mod_pos_bound; lia. }
    pose proof (Z.mod_pos_bound (Z.pos m) (60 * 2 ^ k) ltac:(lia)) as Hb.
    pose proof (Z.mod_pos_bound (Z.pos m / 2 ^ k) 60 ltac:(lia)) as Hb'.
    destruct (Z.pos m mod (60 * 2 ^ k))%Z as [|r|r] eqn:Hr; try lia.
    + rewrite <- Hq. rewrite Z.div_0_l by lia. reflexivity.
    + unfold Num.floor.
      assert (He' : (0 <=? e)%Z = false) by (apply Z.leb_gt; lia).
      rewrite He'. fold k. rewrite Hq.
      destruct ((Z.pos m / 2 ^ k) mod 60)%Z as [|n|n] eqn:Hn; try lia;
        reflexivity.
Qed.

Lemma minutes_decimal (x : float) :
  Spec.nonNegativeFinite x = true -> (Spec.wholePart x < 2 ^ 53)%Z ->
  Num.numberToString toStringOther (Num.floor (Prim2SF x))
  = Num.decimal (Z.to_N (Spec.wholePart x)).
Proof.
  unfold Spec.nonNegativeFinite, Spec.wholePart.
  destruct (Prim2SF x) as [s|s| |s m e]; try discriminate; [reflexivity|].
  destruct s; [discriminate|]. intros _ Hb. unfold Num.floor.
  destruct (0 <=? e)%Z eqn:He.
  - unfold Num.numberToString, Num.integerValue. rewrite He.
    apply Z.ltb_lt in Hb. rewrite Hb. reflexivity.
  - apply Z.leb_gt in He.
    assert (Hk : (0 < 2 ^ (- e))%Z) by (apply Z.pow_pos_nonneg; lia).
    pose proof (Z.div_pos (Z.pos m) (2 ^ (- e)) ltac:(lia) Hk) as Hq.
    destruct (Z.pos m / 2 ^ (- e))%Z as [|n|n] eqn:En; [reflexivity| |lia].
    unfold Num.numberToString, Num.integerValue.
    change (0 <=? 0)%Z with true. cbv iota.
    change (2 ^ 0)%Z with 1%Z. rewrite Z.mul_1_r.
    apply Z.ltb_lt in Hb. rewrite Hb. reflexivity.
Qed.

(** C10: [formatTime] is a total function; on [NaN] and on the infinities
    it returns ["0:00"]; on a finite [t] that is not negative it returns
    [Math.floor(t / 60)] printed as a number, a colon, and the two decimal
    digits of the whole seconds of [t] modulo 60; the minutes, when below
    [2^53], are printed as the decimal numeral of the whole part of the
    quotient [t / 60]. *)
Theorem formatTime_spec (t : float) :
  (Num.isNaN t = true \/ Num.isFinite t = false ->
   Player.formatTime toStringOther t = lit "0:00") /\
  (Spec.nonNegativeFinite t = true ->
   Player.formatTime toStringOther t =
     Num.numberToString toStringOther (Num.floor (Prim2SF (t / 60)))
     ++ lit ":" ++ Spec.twoDigits (Spec.wholePart t mod 60)) /\
  (Spec.nonNegativeFinite t = true ->
   Spec.nonNegativeFinite (t / 60) = true ->
   (Spec.wholePart (t / 60) < 2 ^ 53)%Z ->
   exists minutes,
     Player.formatTime toStringOther t =
       minutes ++ lit ":" ++ Spec.twoDigits (Spec.wholePart t mod 60) /\
     Spec.numeralOf minutes (Z.to_N (Spec.wholePart (t / 60)))).
Proof.
  assert (Hfin : Spec.nonNegativeFinite t = true ->
    Player.formatTime toStringOther t =
      Num.numberToString toStringOther (Num.floor (Prim2SF (t / 60)))
      ++ lit ":" ++ Spec.twoDigits (Spec.wholePart t mod 60)).
  { unfold Player.formatTime, Num.isNaN, Num.isFinite,
      Spec.nonNegativeFinite, Spec.wholePart.
    destruct (Prim2SF t) as [s|s| |s m e] eqn:Ht; try discriminate.
    - intros _. reflexivity.
    - destruct s; [discriminate|]. intros _. cbn [orb negb].
      rewrite floor_remainder_finite. cbn zeta.
      rewrite small_digits; [reflexivity|].
      apply Z.mod_pos_bound; lia. }
  split; [|split; [exact Hfin|]].
  - unfold Player.formatTime. intros [H|H]; rewrite H;
      [reflexivity | now rewrite orb_true_r].
  - intros Ht Hq Hb. eexists. split.
    + rewrite (Hfin Ht), (minutes_decimal _ Hq Hb). reflexivity.
    + apply decimal_numeral.
Qed.

End FormatTimeFacts.

(** The theorem above at 75.5 seconds and at infinity. *)
Lemma formatTime_spec_witness :
  Player.formatTime (fun _ => []) 75.5 = lit "1:15" /\
  Player.formatTime (fun _ => []) infinity = lit "0:00" /\
  exists minutes,
    Player.formatTime (fun _ => []) 4000 = minutes ++ lit ":40" /\
    Spec.numeralOf minutes 66.
Proof.
  destruct (formatTime_spec (fun _ => []) 75.5) as (_ & Hfin & _).
  destruct (formatTime_spec (fun _ => []) infinity) as (Hinf & _).
  destruct (formatTime_spec (fun _ => []) 4000) as (_ & _ & Hnum).
  split; [|split].
  - rewrite Hfin; vm_compute; reflexivity.
  - apply Hinf. right. vm_compute. reflexivity.
  - destruct Hnum as (minutes & Hf & Hm);
      [vm_compute; reflexivity | vm_compute; reflexivity
      | vm_compute; reflexivity |].
    exists minutes. split; [exact Hf | exact Hm].
Defined.

(* ===================================================================== *)
(** ** The current player *)
(* ===================================================================== *)

Import Player Spec.

(** ** The placeholder simulation *)

Lemma togglePlay_placeholder {b : Browser} (s : State) (url : jsstring) :
  s.(audioUrl) = Some url -> JS.truthy url = true ->
  isPlaceholderUrl url = true -> s.(isPlaying) = false ->
  togglePlay s = playPlaceholderAudio (setAudioError None s).
Proof.
  intros Hu Ht Hp Hplay. unfold togglePlay. rewrite Hu, Ht, Hp. cbn [negb].
  change (isPlaying (setAudioError None s)) with (isPlaying s).
  rewrite Hplay. reflexivity.
Qed.

Lemma playPlaceholderAudio_fields (s : State) :
  hasUrl s.(audioUrl) = true ->
  let s' := playPlaceholderAudio s in
  (s'.(isLoadingAudio) = false /\ s'.(isPlaying) = true /\
   s'.(duration) = 5%float /\ s'.(audioError) = s.(audioError)) /\
  (s'.(simulationIntervalRef) = Some s.(nextTimer) /\
   s'.(timers) = <[s.(nextTimer) := 0%float]> (clearedTimers s)) /\
  (s'.(audioUrl) = s.(audioUrl) /\ s'.(isLoading) = s.(isLoading) /\
   s'.(audioRef) = s.(audioRef) /\ s'.(network) = s.(network) /\
   s'.(mounted) = s.(mounted)).
Proof.
  intros H. unfold playPlaceholderAudio, clearedTimers. rewrite H. cbn [negb].
  destruct s as [u l ip d ct ae ila at_ v ar pp si tm nt nw mt].
  destruct si; repeat split; reflexivity.
Qed.

Lemma progress_below (n : nat) :
  (n <= 50)%nat -> Num.geb (progressAfter n) 5 = false.
Proof.
  intros H. do 51 (destruct n as [|n]; [vm_compute; reflexivity|]). lia.
Qed.

Lemma tick_running nw id n s :
  running nw id n s -> Num.geb (progressAfter (S n)) 5 = false ->
  running nw id (S n) (intervalCallback id s).
Proof.
  intros (Ht & Hr & Hp & _ & Hn) Hg. unfold intervalCallback. rewrite Ht.
  cbn [progressAfter] in Hg. rewrite Hg.
  unfold running. cbn [progressAfter].
  destruct s as [u l ip d ct ae ila at_ v ar pp si tm nt nw' mt].
  cbn in Ht, Hr, Hn |- *. rewrite lookup_insert_eq.
  repeat split; auto.
Qed.

Lemma tick_last nw id n s :
  running nw id n s -> Num.geb (progressAfter (S n)) 5 = true ->
  let s' := intervalCallback id s in
  s'.(isPlaying) = false /\ phase s' = Resting /\ s'.(currentTime) = 0%float /\
  s'.(simulationIntervalRef) = None /\ s'.(timers) !! id = None /\
  s'.(network) = nw.
Proof.
  intros (Ht & Hr & Hp & _ & Hn) Hg. unfold intervalCallback. rewrite Ht.
  cbn [progressAfter] in Hg. rewrite Hg.
  destruct s as [u l ip d ct ae ila at_ v ar pp si tm nt nw' mt].
  cbn in Ht, Hr, Hn |- *. subst si. cbn.
  rewrite lookup_delete_eq.
  unfold phase in *. cbn in *.
  destruct (hasUrl u); [|discriminate]. cbn in *.
  destruct ila; [discriminate|]. destruct ae; [discriminate|].
  repeat split; auto.
Qed.

Lemma run_snoc {b : Browser} evs ev s : run (evs ++ [ev]) s = step ev (run evs s).
Proof. unfold run. rewrite fold_left_app. reflexivity. Qed.

Lemma ticks_succ {b : Browser} id n s :
  run (ticks id (S n)) s = intervalCallback id (run (ticks id n) s).
Proof.
  unfold ticks. change (repeat (Tick id) (S n)) with (Tick id :: repeat (Tick id) n).
  rewrite repeat_cons, run_snoc. reflexivity.
Qed.

Lemma running_ticks {b : Browser} nw id n s :
  running nw id 0 s -> (n <= 50)%nat -> running nw id n (run (ticks id n) s).
Proof.
  intros H0. induction n as [|n IH]; intros Hn; [exact H0|].
  rewrite ticks_succ. apply tick_running; [apply IH; lia|].
  apply progress_below; lia.
Qed.

(** ** The invariant of the player *)

Lemma sameUrl_eq u v : sameUrl u v = true -> u = v.
Proof.
  destruct u, v; simpl; try easy. intros H. apply streq_eq in H. congruence.
Qed.

Lemma timersOk_shape s : timersOk s -> timersShape s.
Proof.
  intros [H|(id & p & H1 & H2 & _)]; [left; exact H | right; eauto].
Qed.

Lemma rendersAudio_real u l :
  rendersAudio u l = true -> isPlaceholderUrl (urlOrEmpty u) = false.
Proof.
  unfold rendersAudio. rewrite !andb_true_iff. intros [_ H].
  now apply negb_true_iff.
Qed.

Lemma Inv_sameCore s s' : sameCore s s' -> Inv s -> Inv s'.
Proof.
  intros (Hu & Hl & Hr & Ht & Ha) [Htm Href]. split.
  - unfold timersOk. rewrite Hu, Hr, Ht. exact Htm.
  - intros a' Ha'. rewrite Hu, Hl.
    destruct (audioRef s) as [a|] eqn:E.
    + apply (Href a). exact E.
    + rewrite Ha in Ha' by reflexivity. discriminate.
Qed.

Lemma sameCore_refl s : sameCore s s.
Proof. repeat split; auto. Qed.

Lemma sameCore_trans s1 s2 s3 : sameCore s1 s2 -> sameCore s2 s3 -> sameCore s1 s3.
Proof.
  intros (A1 & A2 & A3 & A4 & A5) (B1 & B2 & B3 & B4 & B5).
  repeat split; try congruence. auto.
Qed.

(** Closes [sameCore] and [clears] goals that hold by computation. *)
Ltac core := repeat split; try reflexivity; try (intros; assumption); try discriminate.

Lemma core_request r s : sameCore s (request r s).
Proof. core. Qed.
Lemma core_togglePlayCatch e s : sameCore s (togglePlayCatch e s).
Proof. core. Qed.
Lemma core_togglePlayStarted s : sameCore s (togglePlayStarted s).
Proof. core. Qed.
Lemma core_handleAudioError e s : sameCore s (handleAudioError e s).
Proof. core. Qed.
Lemma core_testAudioUrlSettled r s : sameCore s (testAudioUrlSettled r s).
Proof. destruct r as [[[] st]|]; core. Qed.
Lemma core_setAudioRef s a x :
  s.(audioRef) = Some a -> sameCore s (setAudioRef (Some x) s).
Proof. intros H. repeat split; try reflexivity. rewrite H. discriminate. Qed.
Lemma core_withAudio f s : sameCore s (withAudio f s).
Proof.
  unfold withAudio. destruct (audioRef s) eqn:E; [|apply sameCore_refl].
  apply (core_setAudioRef s m), E.
Qed.
Lemma core_handleTimeUpdate s : sameCore s (handleTimeUpdate s).
Proof.
  unfold handleTimeUpdate. destruct (audioRef s); [|apply sameCore_refl].
  destruct (isPlaying s); core.
Qed.
Lemma core_handleLoadedMetadata s : sameCore s (handleLoadedMetadata s).
Proof.
  unfold handleLoadedMetadata. destruct (audioRef s); core.
Qed.
Lemma core_handleSeek x l w s : sameCore s (handleSeek x l w s).
Proof.
  unfold handleSeek. destruct (audioRef s) eqn:E; [|apply sameCore_refl].
  destruct (_ || _); [apply sameCore_refl|].
  cbn zeta. destruct (setMediaCurrentTime _ _); [|apply sameCore_refl].
  repeat split; try reflexivity. rewrite E. discriminate.
Qed.
Lemma core_handleVolumeChange v s : sameCore s (handleVolumeChange v s).
Proof.
  unfold handleVolumeChange, andThen, withAudio.
  change (audioRef (setVolume v s)) with (audioRef s).
  destruct (audioRef s) eqn:E; repeat split; try reflexivity.
  all: try (rewrite E; discriminate). all: intros _; exact E.
Qed.
Lemma core_openAudioInNewTab s : sameCore s (openAudioInNewTab s).
Proof.
  unfold openAudioInNewTab. destruct (audioUrl s); [|apply sameCore_refl].
  destruct (_ && _); core.
Qed.
Lemma core_togglePlayLoaded v s : sameCore s (togglePlayLoaded v s).
Proof.
  unfold togglePlayLoaded. destruct (audioRef s) eqn:E; [|apply core_togglePlayCatch].
  repeat split; try reflexivity. rewrite E. discriminate.
Qed.
Lemma core_testEffect s : sameCore s (testEffect s).
Proof.
  unfold testEffect, testAudioUrl. destruct (audioUrl s); [|apply sameCore_refl].
  destruct (_ && _); [|apply sameCore_refl]. destruct (isMurfUrl _); core.
Qed.

Lemma clears_timers s s' :
  clears s s' -> timersShape s ->
  s'.(simulationIntervalRef) = None /\ s'.(timers) = ∅.
Proof.
  intros (_ & _ & Hr & Ht & _) Hs. split; [exact Hr|]. rewrite Ht.
  unfold clearedTimers.
  destruct Hs as [[-> ->]|(id & p & -> & ->)]; [reflexivity|].
  apply delete_singleton_eq.
Qed.

Lemma refOk_keep s s' :
  s'.(audioUrl) = s.(audioUrl) -> s'.(isLoading) = s.(isLoading) ->
  (s.(audioRef) = None -> s'.(audioRef) = None) -> refOk s -> refOk s'.
Proof.
  intros Hu Hl Ha Href a' Ha'. rewrite Hu, Hl.
  destruct (audioRef s) as [a|] eqn:E; [apply (Href a); exact E|].
  rewrite Ha in Ha' by reflexivity. discriminate.
Qed.

Lemma Inv_clears s s' : clears s s' -> Inv s -> Inv s'.
Proof.
  intros Hc [Htm Href]. split.
  - left. apply (clears_timers s s' Hc), timersOk_shape, Htm.
  - destruct Hc as (Hu & Hl & _ & _ & Ha). eapply refOk_keep; eauto.
Qed.

Lemma clears_resetEffect s : clears s (resetEffect s).
Proof.
  unfold clears, clearedTimers.
  destruct s as [u l ip d ct ae ila at_ v ar pp si tm nt nw mt].
  destruct si, ar; repeat split; try reflexivity; discriminate.
Qed.

Lemma clears_stopCurrentPlayback s : clears s (stopCurrentPlayback s).
Proof.
  unfold clears, clearedTimers.
  destruct s as [u l ip d ct ae ila at_ v ar pp si tm nt nw mt].
  destruct si, ar, pp; repeat split; try reflexivity; discriminate.
Qed.

Lemma clears_handleEnded s : clears s (handleEnded s).
Proof.
  unfold clears, clearedTimers.
  destruct s as [u l ip d ct ae ila at_ v ar pp si tm nt nw mt].
  destruct si; repeat split; try reflexivity; intros; assumption.
Qed.

Lemma refOk_placeholder s :
  refOk s -> isPlaceholderUrl (urlOrEmpty s.(audioUrl)) = true ->
  s.(audioRef) = None.
Proof.
  intros Href Hp. destruct (audioRef s) as [a|] eqn:E; [|reflexivity].
  apply Href, rendersAudio_real in E. congruence.
Qed.

Lemma Inv_playPlaceholderAudio s :
  isPlaceholderUrl (urlOrEmpty s.(audioUrl)) = true ->
  Inv s -> Inv (playPlaceholderAudio s).
Proof.
  intros Hp HI. destruct (hasUrl (audioUrl s)) eqn:Hh.
  - destruct (playPlaceholderAudio_fields s Hh) as
      (_ & (Hr & Htm) & (Hau & Hil & Har & _ & _)).
    destruct HI as [Ht Href]. split.
    + right. exists (nextTimer s), 0%float. rewrite Hr, Htm, Hau.
      split; [reflexivity|]. split; [|exact Hp].
      unfold clearedTimers.
      destruct (timersOk_shape s Ht) as [[-> ->]|(id & p & -> & ->)].
      * apply insert_empty.
      * rewrite delete_singleton_eq. apply insert_empty.
    + eapply refOk_keep; [exact Hau | exact Hil | | exact Href].
      intros H. rewrite Har. exact H.
  - unfold playPlaceholderAudio. rewrite Hh. exact HI.
Qed.

Lemma intervalCallback_fields id p s :
  s.(timers) !! id = Some p ->
  let p' := (p + 0.1)%float in
  let s' := intervalCallback id s in
  (s'.(audioUrl) = s.(audioUrl) /\ s'.(isLoading) = s.(isLoading) /\
   s'.(audioRef) = s.(audioRef)) /\
  (Num.geb p' 5 = false ->
   s'.(simulationIntervalRef) = s.(simulationIntervalRef) /\
   s'.(timers) = <[id := p']> s.(timers)) /\
  (Num.geb p' 5 = true ->
   s'.(simulationIntervalRef) = None /\
   s'.(timers) = match s.(simulationIntervalRef) with
                 | Some r => delete r (<[id := p']> s.(timers))
                 | None => <[id := p']> s.(timers)
                 end).
Proof.
  intros E. unfold intervalCallback. rewrite E.
  destruct (Num.geb (p + 0.1) 5) eqn:G;
    destruct s as [u l ip d ct ae ila at_ v ar pp si tm nt nw mt];
    destruct si; repeat split; try reflexivity; intros; discriminate.
Qed.

Lemma Inv_intervalCallback id s : Inv s -> Inv (intervalCallback id s).
Proof.
  intros [Ht Href].
  destruct (timers s !! id) as [p|] eqn:E;
    [|unfold intervalCallback; rewrite E; split; assumption].
  destruct (intervalCallback_fields id p s E) as ((Hu & Hl & Ha) & Hrun & Hend).
  split; [|eapply refOk_keep; [exact Hu | exact Hl | | exact Href];
           intros H; rewrite Ha; exact H].
  destruct Ht as [[Hr Htm]|(id' & p' & Hr & Htm & Hp)].
  { rewrite Htm in E. rewrite lookup_empty in E. discriminate. }
  rewrite Htm in E. apply lookup_singleton_Some in E. destruct E as [-> ->].
  destruct (Num.geb (p + 0.1) 5) eqn:G.
  - destruct (Hend eq_refl) as [Hr' Ht']. left. split; [exact Hr'|].
    rewrite Ht', Hr, Htm, insert_singleton_eq. apply delete_singleton_eq.
  - destruct (Hrun eq_refl) as [Hr' Ht']. right. exists id, (p + 0.1)%float.
    rewrite Hr', Ht', Hu, Htm. split; [exact Hr|].
    split; [apply insert_singleton_eq | exact Hp].
Qed.

Lemma Inv_setAudioError e s : Inv s -> Inv (setAudioError e s).
Proof. apply Inv_sameCore. core. Qed.

Lemma Inv_togglePlay {b : Browser} s : Inv s -> Inv (togglePlay s).
Proof.
  intros HI. unfold togglePlay.
  destruct (audioUrl s) as [url|] eqn:Hu; [|apply Inv_setAudioError, HI].
  destruct (JS.truthy url) eqn:Ht; cbn [negb]; [|apply Inv_setAudioError, HI].
  pose proof (Inv_setAudioError None s HI) as HI1.
  assert (Hu1 : audioUrl (setAudioError None s) = Some url) by exact Hu.
  set (s1 := setAudioError None s) in *.
  destruct (isPlaceholderUrl url) eqn:Hp.
  - destruct (isPlaying s1).
    + apply (Inv_clears s1), HI1. apply clears_stopCurrentPlayback.
    + apply Inv_playPlaceholderAudio; [|exact HI1]. rewrite Hu1. exact Hp.
  - destruct (audioRef s1) as [a|] eqn:Ha; [|exact HI1].
    destruct (isPlaying s1).
    + apply (Inv_clears s1), HI1. apply clears_stopCurrentPlayback.
    + assert (HI2 : Inv (setIsLoadingAudio true s1)) by (revert HI1; apply Inv_sameCore; core).
      assert (K : forall x, Inv (setAudioRef (Some x) (setIsLoadingAudio true s1))).
      { intros x. revert HI2. apply Inv_sameCore. repeat split; try reflexivity.
        change (audioRef (setIsLoadingAudio true s1)) with (audioRef s1).
        rewrite Ha. discriminate. }
      cbn zeta. destruct (_ <=? _); [apply K|].
      destruct (_ =? _); [|apply K].
      apply (Inv_sameCore _ _ (core_request _ _)), K.
Qed.

Lemma refOk_commitAudio s : refOk (commitAudio s).
Proof.
  unfold commitAudio, refOk.
  destruct (rendersAudio (audioUrl s) (isLoading s)) eqn:E.
  - destruct (audioRef s); intros; exact E.
  - intros a H. discriminate H.
Qed.

Lemma commitAudio_fields s :
  let s' := commitAudio s in
  s'.(audioUrl) = s.(audioUrl) /\ s'.(isLoading) = s.(isLoading) /\
  s'.(simulationIntervalRef) = s.(simulationIntervalRef) /\
  s'.(timers) = s.(timers) /\ s'.(mounted) = s.(mounted).
Proof.
  unfold commitAudio. destruct (rendersAudio _ _); [destruct (audioRef s)|];
    repeat split; reflexivity.
Qed.

Lemma Inv_receiveProps url loading s : Inv s -> Inv (receiveProps url loading s).
Proof.
  intros [Ht Href]. unfold receiveProps.
  set (s0 := setIsLoading loading (setAudioUrl url s)).
  destruct (commitAudio_fields s0) as (Hu & Hl & Hr & Htm & _).
  pose proof (refOk_commitAudio s0) as Href1.
  destruct (sameUrl (audioUrl s) url) eqn:E; cbn [negb].
  - apply sameUrl_eq in E. split; [|exact Href1].
    unfold timersOk. rewrite Hu, Hr, Htm. subst s0.
    change (audioUrl (setIsLoading loading (setAudioUrl url s))) with url.
    rewrite <- E. exact Ht.
  - apply (Inv_sameCore _ _ (core_testEffect _)).
    pose proof (clears_resetEffect (commitAudio s0)) as Hc.
    split.
    + left. apply (clears_timers _ _ Hc).
      unfold timersShape. rewrite Hr, Htm. apply (timersOk_shape s Ht).
    + destruct Hc as (Hu' & Hl' & _ & _ & Ha'). eapply refOk_keep; eauto.
Qed.

Lemma Inv_unmount s : Inv s -> Inv (unmount s).
Proof.
  intros [Ht Href]. split; [exact Ht|]. intros a H. discriminate H.
Qed.

Lemma Inv_step {b : Browser} ev s : Inv s -> Inv (step ev s).
Proof.
  intros HI. destruct ev; cbn [step].
  - destruct (mounted s); [apply Inv_receiveProps|]; exact HI.
  - destruct (_ && _); [apply Inv_togglePlay|]; exact HI.
  - apply (Inv_sameCore s), HI. apply core_togglePlayLoaded.
  - apply (Inv_sameCore s), HI. apply core_togglePlayCatch.
  - apply (Inv_sameCore s), HI. apply core_togglePlayStarted.
  - apply (Inv_sameCore s), HI. apply core_togglePlayCatch.
  - apply (Inv_sameCore s), HI. apply core_testAudioUrlSettled.
  - apply Inv_intervalCallback, HI.
  - destruct (audioRef s) as [a|] eqn:E; [|exact HI].
    apply (Inv_sameCore s), HI.
    eapply sameCore_trans;
      [apply (core_setAudioRef s a), E | apply core_handleTimeUpdate].
  - destruct (audioRef s) as [a|] eqn:E; [|exact HI].
    apply (Inv_sameCore s), HI.
    eapply sameCore_trans;
      [apply (core_setAudioRef s a), E | apply core_handleLoadedMetadata].
  - apply (Inv_sameCore s), HI. apply core_withAudio.
  - destruct (audioRef s) as [a|] eqn:E; [|exact HI].
    apply (Inv_clears (setAudioRef (Some (mediaEnded a)) s));
      [apply clears_handleEnded|].
    apply (Inv_sameCore s), HI. apply (core_setAudioRef s a), E.
  - destruct (audioRef s); [|exact HI].
    apply (Inv_sameCore s), HI. apply core_handleAudioError.
  - destruct (rendersControls s); [|exact HI].
    apply (Inv_sameCore s), HI. apply core_handleSeek.
  - destruct (rendersControls s); [|exact HI].
    apply (Inv_sameCore s), HI. apply core_handleVolumeChange.
  - destruct (rendersControls s); [|exact HI].
    apply (Inv_sameCore s), HI. apply core_openAudioInNewTab.
  - apply Inv_unmount, HI.
Qed.

Lemma Inv_run {b : Browser} evs s : Inv s -> Inv (run evs s).
Proof.
  revert s. induction evs as [|ev evs IH]; intros s HI; [exact HI|].
  apply IH, Inv_step, HI.
Qed.

Lemma Inv_mount url loading : Inv (mount url loading).
Proof.
  unfold mount. apply (Inv_sameCore _ _ (core_testEffect _)).
  set (s0 := initial url loading).
  destruct (commitAudio_fields s0) as (Hu & Hl & Hr & Htm & _).
  pose proof (clears_resetEffect (commitAudio s0)) as Hc. split.
  - left. apply (clears_timers _ _ Hc). left. rewrite Hr, Htm. split; reflexivity.
  - destruct Hc as (Hu' & Hl' & _ & _ & Ha'). eapply refOk_keep; eauto.
    apply refOk_commitAudio.
Qed.

Lemma Inv_drivers s : Inv s -> (drivers s <= 1)%nat.
Proof.
  intros [Ht Href]. unfold drivers.
  destruct Ht as [[_ ->]|(id & p & _ & Htm & Hp)].
  - rewrite map_size_empty. destruct (audioRef s) as [a|]; [destruct (mediaPlaying a)|]; lia.
  - rewrite (refOk_placeholder s Href Hp), Htm, map_size_singleton. lia.
Qed.

(** ** A new audio reference *)

Lemma resetEffect_isReset (s : State) : isReset (resetEffect s).
Proof.
  unfold isReset.
  destruct s as [u l ip d ct ae ila at_ v ar pp si tm nt nw mt].
  destruct si, ar; repeat split; try reflexivity; try discriminate;
    match goal with H : _ = Some _ |- _ => injection H as <- end; reflexivity.
Qed.

Lemma testEffect_isReset (s : State) : isReset s -> isReset (testEffect s).
Proof.
  unfold testEffect, testAudioUrl.
  destruct (audioUrl s) as [url|]; [|easy].
  destruct (_ && _); [|easy].
  destruct (isMurfUrl url); easy.
Qed.

Lemma isReset_phase (s : State) :
  isReset s -> phase s = Empty \/ phase s = Resting.
Proof.
  intros (Hp & _ & _ & He & Hl & _). unfold phase.
  destruct (hasUrl (audioUrl s)); cbn [negb]; [|now left].
  rewrite Hl, He, Hp. now right.
Qed.

Lemma isReset_silent (s : State) :
  isReset s ->
  match s.(audioRef) with
  | Some a => if mediaPlaying a then 1%nat else 0%nat
  | None => 0%nat
  end = 0%nat.
Proof.
  intros (_ & _ & _ & _ & _ & _ & _ & Ha).
  destruct (audioRef s) as [a|]; [|reflexivity].
  destruct (Ha a eq_refl) as [Hp _]. unfold mediaPlaying. rewrite Hp. reflexivity.
Qed.

Lemma receiveProps_changed s url loading :
  sameUrl s.(audioUrl) url = false ->
  receiveProps url loading s =
  testEffect (resetEffect (commitAudio (setIsLoading loading (setAudioUrl url s)))).
Proof. intros H. unfold receiveProps. rewrite H. reflexivity. Qed.


Lemma network_resetEffect s : network (resetEffect s) = network s.
Proof.
  destruct s as [u l ip d ct ae ila at_ v ar pp si tm nt nw mt].
  destruct si, ar; reflexivity.
Qed.

Lemma network_testEffect_placeholder s url :
  s.(audioUrl) = Some url -> isPlaceholderUrl url = true ->
  testEffect s = s.
Proof.
  intros Hu Hp. unfold testEffect. rewrite Hu, Hp. cbn [negb].
  rewrite andb_false_r. reflexivity.
Qed.

Lemma network_commitAudio_placeholder s url :
  s.(audioUrl) = Some url -> isPlaceholderUrl url = true ->
  network (commitAudio s) = network s.
Proof.
  intros Hu Hp. unfold commitAudio, rendersAudio. rewrite Hu.
  cbn [urlOrEmpty]. rewrite Hp. cbn [negb]. rewrite andb_false_r. reflexivity.
Qed.

Lemma audioUrl_resetEffect s : audioUrl (resetEffect s) = audioUrl s.
Proof. apply (clears_resetEffect s). Qed.

Lemma audioUrl_commitAudio s : audioUrl (commitAudio s) = audioUrl s.
Proof. apply (commitAudio_fields s). Qed.

Lemma audioUrl_testEffect s : audioUrl (testEffect s) = audioUrl s.
Proof. apply (core_testEffect s). Qed.

Lemma receive_placeholder_silent {b : Browser} (s0 : State) (url : jsstring) (loading : bool) :
  isPlaceholderUrl url = true ->
  network (step (Props (Some url) loading) s0) = network s0.
Proof.
  intros Hp. cbn [step]. destruct (mounted s0); [|reflexivity].
  unfold receiveProps.
  set (s1 := setIsLoading loading (setAudioUrl (Some url) s0)).
  assert (Hu1 : audioUrl s1 = Some url) by reflexivity.
  assert (Hn1 : network (commitAudio s1) = network s0).
  { rewrite (network_commitAudio_placeholder s1 url Hu1 Hp). reflexivity. }
  destruct (negb _); [|exact Hn1].
  rewrite (network_testEffect_placeholder _ url), network_resetEffect; [exact Hn1| |exact Hp].
  rewrite audioUrl_resetEffect, audioUrl_commitAudio. exact Hu1.
Qed.

Lemma receive_changed {b : Browser} (s : State) (url : option jsstring) (loading : bool) :
  s.(mounted) = true -> sameUrl s.(audioUrl) url = false ->
  let s' := step (Props url loading) s in
  s'.(audioUrl) = url /\ isReset s'.
Proof.
  intros Hm Hu. cbn zeta. cbn [step]. rewrite Hm, (receiveProps_changed _ _ _ Hu).
  split.
  - rewrite audioUrl_testEffect, audioUrl_resetEffect, audioUrl_commitAudio. reflexivity.
  - apply testEffect_isReset, resetEffect_isReset.
Qed.

Lemma placeholder_ready {b : Browser} (s0 : State) (url : jsstring) (loading : bool) :
  isPlaceholderUrl url = true ->
  s0.(mounted) = true -> sameUrl s0.(audioUrl) (Some url) = false ->
  let s := step (Props (Some url) loading) s0 in
  phase s = Resting /\ s.(isLoadingAudio) = false.
Proof.
  intros Hp Hm Hu. destruct (receive_changed s0 (Some url) loading Hm Hu) as [Ha Hr].
  cbn zeta. split; [|apply Hr].
  destruct (isReset_phase _ Hr) as [H|H]; [|exact H].
  unfold phase in H. rewrite Ha in H. cbn [hasUrl] in H.
  rewrite (placeholder_truthy url Hp) in H. cbn [negb] in H.
  destruct Hr as (Hpl & _ & _ & He & Hl & _). rewrite Hl, He, Hpl in H. discriminate.
Qed.

(* ===================================================================== *)
(** ** The claims about the player *)
(* ===================================================================== *)

(** C1 (as stated, refuted): a placeholder simulation that runs when the
    component is unmounted is not stopped; its interval stays active and
    goes on firing. *)
Lemma unmount_keeps_interval :
  let s := run (b := absoluteUrls) [ClickPlay; Unmount]
               (mount (Some (lit "placeholder_1.mp3")) false) in
  s.(mounted) = false /\ size s.(timers) = 1%nat /\ drivers s = 1%nat /\
  (step (b := absoluteUrls) (Tick 1) s).(timers) !! 1%positive = Some 0.1%float.
Proof. vm_compute. repeat split. Qed.

(** C1 (amended): in every state a mounted player can reach, at most one
    source advances the elapsed time (an active simulation interval or the
    playing media element), and a change of the audio reference leaves none
    active: the running interval is cleared and the media element paused
    before anything new can start. *)
Theorem single_driver {b : Browser} (url : option jsstring) (loading : bool)
    (evs : list Event) :
  let s := run evs (mount url loading) in
  (drivers s <= 1)%nat /\
  (forall url' loading',
     s.(mounted) = true -> sameUrl s.(audioUrl) url' = false ->
     drivers (step (Props url' loading') s) = 0%nat).
Proof.
  cbn zeta. pose proof (Inv_run evs _ (Inv_mount url loading)) as HI.
  set (s := run evs (mount url loading)) in *.
  split; [apply Inv_drivers, HI|].
  intros url' loading' Hm Hu. cbn [step].
  rewrite Hm, (receiveProps_changed _ _ _ Hu).
  set (s0 := setIsLoading loading' (setAudioUrl url' s)).
  destruct (commitAudio_fields s0) as (_ & _ & Hr & Htm & _).
  pose proof (clears_resetEffect (commitAudio s0)) as Hc.
  assert (Hsh : timersShape (commitAudio s0)).
  { unfold timersShape. rewrite Hr, Htm. apply (timersOk_shape s), HI. }
  destruct (clears_timers _ _ Hc Hsh) as [_ Hempty].
  destruct (core_testEffect (resetEffect (commitAudio s0)))
    as (_ & _ & _ & Ht & _).
  unfold drivers. rewrite Ht, Hempty, map_size_empty.
  apply isReset_silent, testEffect_isReset, resetEffect_isReset.
Qed.

(** The theorem above at a player that simulates a placeholder and then
    receives a real URL. *)
Lemma single_driver_witness :
  (drivers (run (b := absoluteUrls) [ClickPlay] (mount (Some (lit "placeholder_1.mp3")) false))
   <= 1)%nat /\
  drivers (step (b := absoluteUrls) (Props (Some (lit "https://murf.ai/clip.mp3")) false)
             (run (b := absoluteUrls) [ClickPlay] (mount (Some (lit "placeholder_1.mp3")) false)))
  = 0%nat.
Proof.
  destruct (single_driver (b := absoluteUrls) (Some (lit "placeholder_1.mp3")) false [ClickPlay])
    as [H1 H2].
  split; [exact H1|]. apply H2; vm_compute; reflexivity.
Defined.

(** C2: for a placeholder URL, receiving the reference issues no request
    and leaves the player at rest, ready to play; a click on play then makes
    it play with a duration of 5 and an interval whose every firing adds 0.1
    to the elapsed time; the player still plays after each of the first 50
    firings, the elapsed time (4.999999999999998 after the 50th) being below
    5, and the 51st, the first to reach 5, ends playback: the player is at
    rest at 0 with the interval cleared.  No request is issued on the way. *)
Theorem placeholder_playback {b : Browser} (url : jsstring) :
  isPlaceholderUrl url = true ->
  (forall (s0 : State) (loading : bool),
     let s := step (Props (Some url) loading) s0 in
     s.(network) = s0.(network) /\
     (s0.(mounted) = true -> sameUrl s0.(audioUrl) (Some url) = false ->
      phase s = Resting /\ s.(isLoadingAudio) = false)) /\
  (forall s : State,
     s.(audioUrl) = Some url -> rendersControls s = true ->
     s.(isLoadingAudio) = false -> s.(isPlaying) = false ->
     let s1 := step ClickPlay s in
     let id := s.(nextTimer) in
     (phase s1 = Playing /\ s1.(duration) = 5%float /\
      s1.(simulationIntervalRef) = Some id /\ s1.(network) = s.(network)) /\
     (forall n, (n <= 50)%nat ->
        let sn := run (ticks id n) s1 in
        phase sn = Playing /\
        (0 < n -> sn.(currentTime) = progressAfter n)%nat /\
        Num.geb (progressAfter n) 5 = false /\
        sn.(network) = s.(network)) /\
     (let s51 := run (ticks id 51) s1 in
      Num.geb (progressAfter 51) 5 = true /\
      s51.(isPlaying) = false /\ phase s51 = Resting /\
      s51.(currentTime) = 0%float /\
      s51.(simulationIntervalRef) = None /\ s51.(timers) !! id = None /\
      s51.(network) = s.(network))).
Proof.
  intros Hp. split.
  { intros s0 loading. cbn zeta. split.
    - apply receive_placeholder_silent, Hp.
    - intros Hm Hu. apply (placeholder_ready s0 url loading Hp Hm Hu). }
  intros s Hu Hc Hl Hplay.
  pose proof (placeholder_truthy url Hp) as Ht.
  assert (Hs1 : step ClickPlay s = playPlaceholderAudio (setAudioError None s)).
  { cbn [step]. rewrite Hc, Hl. cbn [negb andb].
    apply (togglePlay_placeholder s url); assumption. }
  cbn zeta. rewrite Hs1.
  assert (Hh : hasUrl (audioUrl (setAudioError None s)) = true).
  { change (audioUrl (setAudioError None s)) with (audioUrl s).
    rewrite Hu. exact Ht. }
  destruct (playPlaceholderAudio_fields _ Hh) as
    ((Hla & Hpl & Hd & He) & (Hr & Htm) & (Hau & Hil & Har & Hnw & Hmt)).
  set (s1 := playPlaceholderAudio (setAudioError None s)) in *.
  change (nextTimer (setAudioError None s)) with (nextTimer s) in *.
  change (network (setAudioError None s)) with (network s) in *.
  change (audioError (setAudioError None s)) with (@None jsstring) in *.
  change (audioUrl (setAudioError None s)) with (audioUrl s) in *.
  assert (Hph : phase s1 = Playing).
  { unfold phase. rewrite Hau, Hh, Hla, He, Hpl. reflexivity. }
  assert (H0 : running (network s) (nextTimer s) 0 s1).
  { unfold running. rewrite Htm, lookup_insert_eq.
    repeat split; auto. intros; lia. }
  split; [repeat split; assumption|]. split.
  - intros n Hn.
    destruct (running_ticks _ _ n _ H0 Hn) as (_ & _ & Hpn & Hcn & Hnn).
    repeat split; auto. apply progress_below; exact Hn.
  - assert (H50 := running_ticks _ _ 50 _ H0 ltac:(lia)).
    rewrite ticks_succ.
    assert (Hg : Num.geb (progressAfter 51) 5 = true)
      by (vm_compute; reflexivity).
    destruct (tick_last _ _ _ _ H50 Hg) as (A & B & C & D & E & F).
    repeat split; assumption.
Qed.

(** The theorem above at a freshly mounted player. *)
Lemma placeholder_playback_witness :
  let s := mount (Some (lit "placeholder_1.mp3")) false in
  phase s = Resting /\ s.(network) = [] /\
  phase (step (b := absoluteUrls) ClickPlay s) = Playing /\
  (run (b := absoluteUrls) (ticks 1 50) (step (b := absoluteUrls) ClickPlay s)).(currentTime)
  = 4.9999999999999982%float /\
  phase (run (b := absoluteUrls) (ticks 1 51) (step (b := absoluteUrls) ClickPlay s)) = Resting.
Proof.
  cbn zeta.
  destruct (placeholder_playback (b := absoluteUrls) (lit "placeholder_1.mp3")
              ltac:(vm_compute; reflexivity)) as [_ H].
  destruct (H (mount (Some (lit "placeholder_1.mp3")) false)
              ltac:(vm_compute; reflexivity) ltac:(vm_compute; reflexivity)
              ltac:(vm_compute; reflexivity) ltac:(vm_compute; reflexivity))
    as ((Hplay & _) & Hn & (_ & _ & Hend & _)).
  destruct (Hn 50%nat ltac:(lia)) as (_ & Hct & _).
  split; [vm_compute; reflexivity|]. split; [vm_compute; reflexivity|].
  split; [exact Hplay|]. split; [|exact Hend].
  change (nextTimer (mount (Some (lit "placeholder_1.mp3")) false))
    with 1%positive in Hct.
  rewrite Hct by lia. vm_compute. reflexivity.
Defined.

(** C3 (as stated, refuted): a decode failure while [togglePlay] waits for
    the media to load, the browser giving no message, runs [handleAudioError]
    and then the [catch] block, and ends in the error state with the generic
    ["Playback failed: ..."] message, which carries none of the reason
    codes. *)
Lemma load_failure_generic_reason :
  let e := Some (mkMediaError MEDIA_ERR_DECODE []) in
  let s := run (b := absoluteUrls)
               [ClickPlay; MediaErrorEvent e; LoadRejected (loadFailedError e)]
               (mount (Some (lit "https://murf.ai/clip.mp3")) false) in
  phase s = Failed /\
  s.(audioError)
  = Some (lit "Playback failed: Audio load error: Unknown error") /\
  reasonOf s = None.
Proof. vm_compute. repeat split. Qed.

Lemma phase_failed (s : State) (m : jsstring) :
  hasUrl s.(audioUrl) = true -> s.(isLoadingAudio) = false ->
  s.(audioError) = Some m -> phase s = Failed.
Proof. intros Hu Hl He. unfold phase. rewrite Hu, Hl, He. reflexivity. Qed.

Lemma generic_message_no_reason (msg : jsstring) :
  reasonIn reasons (lit "Playback failed: " ++ msg) = None.
Proof. vm_compute. reflexivity. Qed.

(** The message of the [catch] block for an [Error] is the one of the first
    row the error passes, the generic one when it passes none. *)
Lemma playbackErrorMessage_rows (name msg : jsstring) :
  playbackErrorMessage (ThrownError name msg)
  = match firstRow catchRows name msg with
    | Some (m, _) => lit m
    | None => lit "Playback failed: " ++ msg
    end.
Proof.
  unfold playbackErrorMessage. cbn [firstRow catchRows passes existsb].
  rewrite !orb_false_r.
  repeat match goal with
    | |- context [if ?x then _ else _] => destruct x
    end; reflexivity.
Qed.

Lemma firstRow_reason (name msg : jsstring) (m : string) (r : Reason) :
  firstRow catchRows name msg = Some (m, r) ->
  reasonIn reasons (lit m) = Some r.
Proof.
  cbn [firstRow catchRows].
  repeat match goal with
    | |- context [if ?x then _ else _] => destruct x
    end; intros [= <- <-]; vm_compute; reflexivity.
Qed.

(** C3 (amended): [handleAudioError] on a [MediaError] with code 1 to 4
    puts the player in the error state with the message of the reason
    aborted, network, decode or unsupported.  The [catch] block of
    [togglePlay] puts it in the error state and always records a message:
    for an [Error] the message of the first row its lower-cased message or its
    name passes (interrupted or aborted; cors or cross-origin; timeout; the
    name NotSupportedError; the name NotAllowedError; network or fetch), with
    the reason code of that row, and the generic ["Playback failed: "]
    followed by the message of the error, which carries no reason code, when
    it passes none; for a value that is not an [Error] a fixed generic
    message.  The load timeout gets the message of the reason timeout. *)
Theorem error_reasons (s : State) :
  hasUrl s.(audioUrl) = true ->
  (forall e : MediaError, 1 <= e.(code) <= 4 ->
     let s' := handleAudioError (Some e) s in
     phase s' = Failed /\
     s'.(isPlaying) = false /\ s'.(isLoadingAudio) = false /\
     reasonOf s' = reasonOfCode e.(code) /\ reasonOf s' <> None) /\
  (let s' := togglePlayCatch loadTimeoutError s in
   phase s' = Failed /\
   s'.(isPlaying) = false /\ s'.(isLoadingAudio) = false /\
   s'.(audioError)
   = Some (lit "Audio loading timed out - the file may be large or server slow")
   /\ reasonOf s' = Some Timeout) /\
  (forall name msg : jsstring,
     let s' := togglePlayCatch (ThrownError name msg) s in
     phase s' = Failed /\
     s'.(isPlaying) = false /\ s'.(isLoadingAudio) = false /\
     match firstRow catchRows name msg with
     | Some (m, r) =>
         s'.(audioError) = Some (lit m) /\ reasonOf s' = Some r
     | None =>
         s'.(audioError) = Some (lit "Playback failed: " ++ msg) /\
         reasonOf s' = None
     end) /\
  (let s' := togglePlayCatch ThrownOther s in
   phase s' = Failed /\
   s'.(isPlaying) = false /\ s'.(isLoadingAudio) = false /\
   s'.(audioError)
   = Some (lit "Unable to play audio. The file may be temporarily unavailable.")
   /\ reasonOf s' = None).
Proof.
  intros Hu.
  assert (Hcatch : forall error,
            phase (togglePlayCatch error s) = Failed).
  { intros error. apply (phase_failed _ (playbackErrorMessage error));
      [exact Hu | reflexivity | reflexivity]. }
  split; [|split; [|split]].
  - intros [c m] Hc; cbn [code] in Hc. cbn zeta.
    split.
    { apply (phase_failed _ (audioErrorMessage (Some (mkMediaError c m))));
        [exact Hu | reflexivity | reflexivity]. }
    split; [reflexivity|]. split; [reflexivity|].
    assert (Hcases : c = 1 \/ c = 2 \/ c = 3 \/ c = 4) by lia.
    destruct Hcases as [ -> | [ -> | [ -> | -> ] ] ]; vm_compute; split;
      (reflexivity || discriminate).
  - cbn zeta. split; [apply Hcatch|]. split; [reflexivity|].
    split; [reflexivity|]. split; vm_compute; reflexivity.
  - intros name msg. cbn zeta. split; [apply Hcatch|].
    split; [reflexivity|]. split; [reflexivity|].
    assert (He : audioError (togglePlayCatch (ThrownError name msg) s)
                 = Some (playbackErrorMessage (ThrownError name msg)))
      by reflexivity.
    unfold reasonOf. rewrite He, playbackErrorMessage_rows.
    destruct (firstRow catchRows name msg) as [[m r]|] eqn:E.
    + split; [reflexivity|]. apply (firstRow_reason name msg), E.
    + split; [reflexivity|]. apply generic_message_no_reason.
  - cbn zeta. split; [apply Hcatch|]. split; [reflexivity|].
    split; [reflexivity|]. split; vm_compute; reflexivity.
Qed.

(** The theorem above at a decode error and at a play that the browser
    blocks. *)
Lemma error_reasons_witness :
  let s := mount (Some (lit "https://murf.ai/clip.mp3")) false in
  reasonOf (handleAudioError (Some (mkMediaError MEDIA_ERR_DECODE [])) s)
  = Some Decode /\
  (togglePlayCatch
     (ThrownError (lit "NotAllowedError")
        (lit "play() failed because the user didn't interact with the document first."))
     s).(audioError)
  = Some (lit "Audio playback blocked. Click to enable audio").
Proof.
  cbn zeta.
  destruct (error_reasons (mount (Some (lit "https://murf.ai/clip.mp3")) false)
              ltac:(vm_compute; reflexivity))
    as (Hmedia & _ & Hcatch & _).
  split.
  - destruct (Hmedia (mkMediaError MEDIA_ERR_DECODE [])
                ltac:(unfold MEDIA_ERR_DECODE; cbn; lia))
      as (_ & _ & _ & Hr & _).
    rewrite Hr. reflexivity.
  - pose proof (Hcatch (lit "NotAllowedError")
                  (lit "play() failed because the user didn't interact with the document first."))
      as H.
    cbn zeta in H. destruct H as (_ & _ & _ & H).
    exact (proj1 H).
Defined.

(** C5: under a placeholder URL a seek changes nothing, whatever the state
    of the player: [handleSeek], and with it a click on the progress bar,
    returns the state it was given.  The same holds for the earlier player
    under a URL it takes for a mock URL, once its render is committed. *)
Theorem seek_placeholder_noop {b : Browser} (x l w : float) :
  (forall s : State,
     isPlaceholderUrl (urlOrEmpty s.(audioUrl)) = true ->
     handleSeek x l w s = s /\ step (ClickBar x l w) s = s) /\
  (forall s : Legacy.State,
     Legacy.committed s ->
     isMockUrl (urlOrEmpty s.(Legacy.audioUrl)) = true ->
     Legacy.handleSeek x l w s = s).
Proof.
  split.
  - intros s H.
    assert (Hs : handleSeek x l w s = s).
    { unfold handleSeek. destruct (audioRef s); [|reflexivity].
      rewrite H, orb_true_r. reflexivity. }
    split; [exact Hs|]. cbn [step]. rewrite Hs.
    destruct (rendersControls s); reflexivity.
  - intros s Hc Hm. unfold Legacy.handleSeek.
    rewrite Hc; [reflexivity|]. unfold Legacy.rendersAudio. rewrite Hm.
    apply andb_false_r.
Qed.

(** The theorem above at a running simulation. *)
Lemma seek_placeholder_noop_witness :
  let s := run (b := absoluteUrls) [ClickPlay; Tick 1]
               (mount (Some (lit "placeholder_1.mp3")) false) in
  step (b := absoluteUrls) (ClickBar 150 100 200) s = s.
Proof.
  cbn zeta. destruct (seek_placeholder_noop (b := absoluteUrls) 150 100 200) as [H _].
  apply H. vm_compute. reflexivity.
Defined.

(** C6 (as stated, refuted): while the player is loading a real URL (neither
    playing nor paused) a click on the progress bar seeks, and a click whose
    [clientX] is 0 on a bar that starts at 100 moves the elapsed time of a 10
    second clip to -5, outside [0, 10]. *)
Lemma seek_while_loading_unclamped :
  let s := run (b := absoluteUrls) [LoadedMetadata 10; ClickPlay]
               (mount (Some (lit "https://murf.ai/clip.mp3")) false) in
  let s' := step (b := absoluteUrls) (ClickBar 0 100 200) s in
  phase s = Loading /\ s.(isPlaying) = false /\
  s.(currentTime) = 0%float /\ s.(duration) = 10%float /\
  s'.(currentTime) = (-5)%float /\
  PrimFloat.ltb s'.(currentTime) 0 = true.
Proof. vm_compute. repeat split. Qed.

(** C6 (amended): for a real URL [handleSeek] takes effect exactly when the
    media element is mounted, the known duration is not 0 and the target
    time is a finite number, whatever the playing, loading and error flags;
    the target time is [((clientX - left) / width) * duration], assigned as
    it is, without clamping, to the element's [currentTime] and stored as
    the elapsed time.  A target that is [NaN] or infinite (a bar of width 0,
    a stream whose duration is infinite) makes the assignment throw, and
    neither the element nor the elapsed time changes. *)
Theorem seek_real (s : State) (x l w : float) :
  isPlaceholderUrl (urlOrEmpty s.(audioUrl)) = false ->
  let t := ((x - l) / w * s.(duration))%float in
  (forall a, s.(audioRef) = Some a -> Num.strictEq s.(duration) 0 = false ->
     Num.isFinite t = true ->
     let s' := handleSeek x l w s in
     s' = setCurrentTime t (setAudioRef (Some (seekTo t a)) s) /\
     s'.(currentTime) = t /\ s'.(audioRef) = Some (seekTo t a)) /\
  (s.(audioRef) = None \/ Num.strictEq s.(duration) 0 = true \/
   Num.isFinite t = false ->
   handleSeek x l w s = s).
Proof.
  intros Hp. cbn zeta. split.
  - intros a Ha Hd Hf. unfold handleSeek, setMediaCurrentTime.
    rewrite Ha, Hd, Hp. cbn [orb]. cbn zeta. rewrite Hf. repeat split.
  - unfold handleSeek, setMediaCurrentTime.
    intros [H|[H|H]]; [rewrite H; reflexivity| |].
    + destruct (audioRef s); [|reflexivity]. rewrite H. reflexivity.
    + destruct (audioRef s); [|reflexivity].
      destruct (_ || _); [reflexivity|]. cbn zeta. rewrite H. reflexivity.
Qed.

(** The theorem above at a click on the first quarter of the bar of a 10 second
    clip, and at a click on a bar of width 0. *)
Lemma seek_real_witness :
  let s := run (b := absoluteUrls) [LoadedMetadata 10]
               (mount (Some (lit "https://murf.ai/clip.mp3")) false) in
  (handleSeek 150 100 200 s).(currentTime) = 2.5%float /\
  handleSeek 150 100 0 s = s.
Proof.
  cbn zeta.
  destruct (seek_real
              (run (b := absoluteUrls) [LoadedMetadata 10]
                   (mount (Some (lit "https://murf.ai/clip.mp3")) false))
              150 100 200 ltac:(vm_compute; reflexivity)) as [H _].
  destruct (seek_real
              (run (b := absoluteUrls) [LoadedMetadata 10]
                   (mount (Some (lit "https://murf.ai/clip.mp3")) false))
              150 100 0 ltac:(vm_compute; reflexivity)) as [_ H0].
  split.
  - destruct (H (mediaMetadata 10 (freshMedia (lit "https://murf.ai/clip.mp3")))
                ltac:(vm_compute; reflexivity) ltac:(vm_compute; reflexivity)
                ltac:(vm_compute; reflexivity))
      as (_ & Hct & _).
    rewrite Hct. vm_compute. reflexivity.
  - apply H0. right. right. vm_compute. reflexivity.
Defined.

(** C7 (as stated, refuted): on a new audio reference the player does not
    enter the loading state; its loading flag is false and it rests. *)
Lemma new_reference_not_loading :
  let s := step (b := absoluteUrls) (Props (Some (lit "https://murf.ai/clip.mp3")) false)
                (run (b := absoluteUrls) [ClickPlay; Tick 1]
                     (mount (Some (lit "placeholder_1.mp3")) false)) in
  phase s = Resting /\ s.(isLoadingAudio) = false.
Proof. vm_compute. repeat split. Qed.

(** C7 (amended): whenever a mounted player receives a new audio reference,
    whatever its state, the playing flag, the elapsed time, the duration, the
    error, the loading flag, the timer ref and the pending play promise hold
    their initial values again and the media element, if one is mounted, is
    paused at 0; the player is then empty (no URL) or at rest, not loading.
    The reset of the earlier player clears the playing flag, the elapsed
    time, the duration and the error, and leaves its loading flag as it
    was. *)
Theorem new_reference_resets {b : Browser} :
  (forall (s : State) (url : option jsstring) (loading : bool),
     s.(mounted) = true -> sameUrl s.(audioUrl) url = false ->
     let s' := step (Props url loading) s in
     s'.(audioUrl) = url /\ isReset s' /\ phase s' <> Loading /\
     (phase s' = Empty \/ phase s' = Resting)) /\
  (forall s : Legacy.State,
     let s' := Legacy.resetEffect s in
     s'.(Legacy.isPlaying) = false /\ s'.(Legacy.currentTime) = 0%float /\
     s'.(Legacy.duration) = 0%float /\ s'.(Legacy.audioError) = None /\
     s'.(Legacy.isLoadingAudio) = s.(Legacy.isLoadingAudio)).
Proof.
  split.
  - intros s url loading Hm Hu.
    destruct (receive_changed s url loading Hm Hu) as [Ha Hr].
    cbn zeta. split; [exact Ha|]. split; [exact Hr|].
    pose proof (isReset_phase _ Hr) as H.
    split; [|exact H]. intros HL. rewrite HL in H. destruct H; discriminate.
  - intros s. destruct s; cbn. repeat split.
Qed.

(** The theorem above at a player that simulates a placeholder. *)
Lemma new_reference_resets_witness :
  let s := run (b := absoluteUrls) [ClickPlay; Tick 1]
               (mount (Some (lit "placeholder_1.mp3")) false) in
  let s' := step (b := absoluteUrls) (Props (Some (lit "https://murf.ai/clip.mp3")) false) s in
  s.(isPlaying) = true /\ isReset s'.
Proof.
  cbn zeta. split; [vm_compute; reflexivity|].
  destruct (new_reference_resets (b := absoluteUrls)) as [H _].
  apply (H (run (b := absoluteUrls) [ClickPlay; Tick 1]
                (mount (Some (lit "placeholder_1.mp3")) false))
           (Some (lit "https://murf.ai/clip.mp3")) false);
    vm_compute; reflexivity.
Defined.

(** C8: an event that runs an error handler of the player ([handleAudioError],
    the [catch] block of [togglePlay]) leaves the state of the studio (text,
    selected character, last result, socket and the messages sent on it)
    as it was, and changes nothing of the player beyond the playing flag, the
    loading flag, the error message and the pending play promise. *)
Theorem error_handlers_local {b : Browser} (a : App.State) (ev : Event) :
  isErrorEvent ev = true ->
  let a' := App.playerEvent ev a in
  a'.(App.studio) = a.(App.studio) /\
  sameOutsideErrorState a.(App.player) a'.(App.player).
Proof.
  intros Hev. cbn zeta. split; [reflexivity|].
  unfold App.playerEvent. cbn [App.player].
  destruct ev; try discriminate Hev; cbn [step].
  - repeat split.
  - repeat split.
  - destruct (audioRef (App.player a)); repeat split.
Qed.

(** The theorem above at a load timeout. *)
Lemma error_handlers_local_witness :
  let a := App.mkState (Studio.onopen Studio.initial)
             (run (b := absoluteUrls) [ClickPlay]
                  (mount (Some (lit "https://murf.ai/clip.mp3")) false)) in
  let a' := App.playerEvent (b := absoluteUrls) (LoadRejected loadTimeoutError) a in
  a'.(App.studio) = a.(App.studio) /\
  sameOutsideErrorState a.(App.player) a'.(App.player).
Proof.
  cbn zeta.
  apply (error_handlers_local (b := absoluteUrls)
           (App.mkState (Studio.onopen Studio.initial)
              (run (b := absoluteUrls) [ClickPlay]
                   (mount (Some (lit "https://murf.ai/clip.mp3")) false)))
           (LoadRejected loadTimeoutError)).
  reflexivity.
Defined.

(* ===================================================================== *)
(** * Further properties of the code *)
(* ===================================================================== *)

(* ===================================================================== *)
(** ** The current player: what its handlers leave alone *)
(* ===================================================================== *)

(** Closes a goal about a handler by cases on the refs of the state. *)
Ltac by_state :=
  match goal with s : State |- _ => destruct s end;
  repeat match goal with x : option _ |- _ => destruct x end;
  repeat split; reflexivity.

(** Closes a goal about a handler by cases on what it tests. *)
Ltac by_cases :=
  repeat match goal with
    | |- context [match ?x with _ => _ end] => destruct x
    end;
  repeat split; reflexivity.

Lemma same_refl s : sameFields s s.
Proof. repeat split. Qed.

Lemma same_trans s1 s2 s3 : sameFields s1 s2 -> sameFields s2 s3 -> sameFields s1 s3.
Proof. intros (A & B & C) (A' & B' & C'). repeat split; congruence. Qed.

Lemma same_togglePlayStarted s : sameFields s (togglePlayStarted s).
Proof. repeat split. Qed.
Lemma same_setAudioRef x s : sameFields s (setAudioRef x s).
Proof. repeat split. Qed.
Lemma same_withAudio f s : sameFields s (withAudio f s).
Proof. unfold withAudio. destruct (audioRef s); repeat split. Qed.
Lemma same_unmount s : sameFields s (unmount s).
Proof. repeat split. Qed.
Lemma same_handleTimeUpdate s : sameFields s (handleTimeUpdate s).
Proof. unfold handleTimeUpdate. by_cases. Qed.
Lemma same_handleSeek x l w s : sameFields s (handleSeek x l w s).
Proof. unfold handleSeek. by_cases. Qed.
Lemma same_handleEnded s : sameFields s (handleEnded s).
Proof. unfold sameFields. by_state. Qed.
Lemma same_stopCurrentPlayback s : sameFields s (stopCurrentPlayback s).
Proof. unfold sameFields. by_state. Qed.
Lemma same_intervalCallback id s : sameFields s (intervalCallback id s).
Proof.
  unfold intervalCallback. destruct (timers s !! id); [|apply same_refl].
  destruct (Num.geb _ _); unfold sameFields; by_state.
Qed.
Lemma same_playPlaceholderAudio s : sameFields s (playPlaceholderAudio s).
Proof.
  unfold playPlaceholderAudio. destruct (negb _); [apply same_refl|].
  unfold sameFields. by_state.
Qed.
Lemma same_commitAudio_volume s :
  volume (commitAudio s) = volume s /\ audioError (commitAudio s) = audioError s.
Proof. unfold commitAudio. by_cases. Qed.
Lemma same_testEffect_volume s :
  volume (testEffect s) = volume s /\ audioError (testEffect s) = audioError s.
Proof. unfold testEffect, testAudioUrl. by_cases. Qed.
Lemma resetEffect_volume s :
  volume (resetEffect s) = volume s /\ audioError (resetEffect s) = None.
Proof. by_state. Qed.
Lemma togglePlayCatch_fields e s :
  network (togglePlayCatch e s) = network s /\
  volume (togglePlayCatch e s) = volume s /\
  audioError (togglePlayCatch e s) = Some (playbackErrorMessage e).
Proof. repeat split. Qed.
Lemma togglePlayLoaded_fields v s :
  network (togglePlayLoaded v s) = network s /\
  volume (togglePlayLoaded v s) = volume s /\
  (audioError (togglePlayLoaded v s) = audioError s \/
   audioError (togglePlayLoaded v s) = Some (playbackErrorMessage nullRefError)).
Proof. unfold togglePlayLoaded. destruct (audioRef s); repeat split; auto. Qed.
Lemma handleAudioError_fields e s :
  network (handleAudioError e s) = network s /\
  volume (handleAudioError e s) = volume s /\
  audioError (handleAudioError e s) = Some (audioErrorMessage e).
Proof. repeat split. Qed.
Lemma handleLoadedMetadata_fields s :
  network (handleLoadedMetadata s) = network s /\
  volume (handleLoadedMetadata s) = volume s /\
  (audioError (handleLoadedMetadata s) = audioError s \/
   audioError (handleLoadedMetadata s) = None).
Proof. unfold handleLoadedMetadata. destruct (audioRef s); repeat split; auto. Qed.
Lemma testAudioUrlSettled_fields r s :
  network (testAudioUrlSettled r s) = network s /\
  volume (testAudioUrlSettled r s) = volume s /\
  (audioError (testAudioUrlSettled r s) = audioError s \/
   exists status,
     audioError (testAudioUrlSettled r s) =
     Some (lit "Audio file not accessible (" ++ Num.decimal status ++ lit ")")).
Proof.
  destruct r as [[[] st]|]; repeat split; auto. right. exists st. reflexivity.
Qed.
Lemma handleVolumeChange_fields v s :
  network (handleVolumeChange v s) = network s /\
  volume (handleVolumeChange v s) = v /\
  audioError (handleVolumeChange v s) = audioError s.
Proof.
  unfold handleVolumeChange, andThen, withAudio.
  destruct (audioRef (setVolume v s)); repeat split.
Qed.
Lemma openAudioInNewTab_fields s :
  volume (openAudioInNewTab s) = volume s /\
  audioError (openAudioInNewTab s) = audioError s.
Proof. unfold openAudioInNewTab. by_cases. Qed.

Lemma togglePlay_fields {b : Browser} s :
  volume (togglePlay s) = volume s /\
  (hasUrl s.(audioUrl) = true -> audioError (togglePlay s) = None).
Proof.
  unfold togglePlay.
  destruct (audioUrl s) as [url|]; [|split; [reflexivity|discriminate]].
  cbn [hasUrl]. destruct (JS.truthy url); cbn [negb]; [|split; [reflexivity|discriminate]].
  cbn zeta. set (s1 := setAudioError None s).
  assert (H1 : volume s1 = volume s /\ audioError s1 = None) by (split; reflexivity).
  destruct H1 as [Hv He].
  destruct (isPlaceholderUrl url).
  - destruct (isPlaying s1).
    + destruct (same_stopCurrentPlayback s1) as (_ & A & B). split; [exact (eq_trans A Hv) | intros _; exact (eq_trans B He)].
    + destruct (same_playPlaceholderAudio s1) as (_ & A & B). split; [exact (eq_trans A Hv) | intros _; exact (eq_trans B He)].
  - destruct (audioRef s1); [|split; [|intros _]; assumption].
    destruct (isPlaying s1).
    + destruct (same_stopCurrentPlayback s1) as (_ & A & B). split; [exact (eq_trans A Hv) | intros _; exact (eq_trans B He)].
    + destruct (_ <=? _); [|destruct (_ =? _)]; split; try (intros _);
        assumption.
Qed.

Lemma receiveProps_fields url loading s :
  volume (receiveProps url loading s) = volume s /\
  (audioError (receiveProps url loading s) = audioError s \/
   audioError (receiveProps url loading s) = None).
Proof.
  unfold receiveProps.
  set (s0 := setIsLoading loading (setAudioUrl url s)).
  destruct (same_commitAudio_volume s0) as [Hv He].
  destruct (negb _).
  - destruct (same_testEffect_volume (resetEffect (commitAudio s0))) as [Hv' He'].
    destruct (resetEffect_volume (commitAudio s0)) as [Hv'' He''].
    split; [|right].
    + rewrite Hv', Hv''. exact Hv.
    + rewrite He'. exact He''.
  - split; [|left]; assumption.
Qed.

(* ===================================================================== *)
(** ** The current player: volume and error message *)
(* ===================================================================== *)

(** X5: no event other than an input on the volume slider changes the volume
    cell (a new audio reference does not reset it); an input on the rendered
    slider sets the cell and the volume of the mounted media element to the
    new value. *)
Theorem volume_only_by_slider {b : Browser} (ev : Event) (s : State) :
  ((forall v, ev <> VolumeInput v) -> volume (step ev s) = volume s) /\
  (forall v, ev = VolumeInput v -> rendersControls s = true ->
     volume (step ev s) = v /\
     forall a, audioRef (step ev s) = Some a -> mediaVolume a = v).
Proof.
  split.
  - intros Hev. destruct ev; cbn [step].
    + destruct (mounted s); [apply receiveProps_fields | reflexivity].
    + destruct (_ && _); [apply togglePlay_fields | reflexivity].
    + apply togglePlayLoaded_fields.
    + apply togglePlayCatch_fields.
    + reflexivity.
    + apply togglePlayCatch_fields.
    + apply testAudioUrlSettled_fields.
    + apply same_intervalCallback.
    + destruct (audioRef s); [|reflexivity].
      apply (same_trans s _ _ (same_setAudioRef _ s) (same_handleTimeUpdate _)).
    + destruct (audioRef s); [|reflexivity].
      destruct (handleLoadedMetadata_fields (setAudioRef (Some (mediaMetadata d m)) s))
        as (_ & H & _). exact H.
    + apply same_withAudio.
    + destruct (audioRef s); [|reflexivity].
      apply (same_trans s _ _ (same_setAudioRef _ s) (same_handleEnded _)).
    + destruct (audioRef s); [apply handleAudioError_fields | reflexivity].
    + destruct (rendersControls s); [apply same_handleSeek | reflexivity].
    + now destruct (Hev v).
    + destruct (rendersControls s); [apply openAudioInNewTab_fields | reflexivity].
    + reflexivity.
  - intros v -> Hc. cbn [step]. rewrite Hc. split; [apply handleVolumeChange_fields|].
    unfold handleVolumeChange, andThen, withAudio.
    destruct (audioRef (setVolume v s)) as [a0|] eqn:E.
    + intros a [= <-]. reflexivity.
    + intros a H. change (audioRef s = Some a) in H.
      change (audioRef s = None) in E. congruence.
Qed.

(** The theorem above at a new reference after the volume was set to 0.5. *)
Lemma volume_only_by_slider_witness :
  let s := run (b := absoluteUrls) [VolumeInput 0.5]
               (mount (Some (lit "https://murf.ai/clip.mp3")) false) in
  (step (b := absoluteUrls) (Props (Some (lit "placeholder_1.mp3")) false) s).(volume)
  = 0.5%float.
Proof.
  cbn zeta.
  destruct (volume_only_by_slider (b := absoluteUrls)
              (Props (Some (lit "placeholder_1.mp3")) false)
              (run (b := absoluteUrls) [VolumeInput 0.5]
                   (mount (Some (lit "https://murf.ai/clip.mp3")) false)))
    as [H _].
  rewrite H; [vm_compute; reflexivity | intros v Hv; discriminate Hv].
Defined.

Lemma playbackErrorMessage_not_noUrl e :
  streq (playbackErrorMessage e) noUrlMessage = false.
Proof.
  unfold playbackErrorMessage. destruct e as [name msg|]; [|vm_compute; reflexivity].
  cbn zeta.
  repeat match goal with
    | |- context [if ?x then _ else _] => destruct x
    end; vm_compute; reflexivity.
Qed.

Lemma audioErrorMessage_not_noUrl e :
  streq (audioErrorMessage e) noUrlMessage = false.
Proof.
  unfold audioErrorMessage. destruct e as [e|]; [|vm_compute; reflexivity].
  repeat match goal with
    | |- context [if ?x then _ else _] => destruct x
    end; vm_compute; reflexivity.
Qed.

Lemma noUrl_keep s s' :
  audioError s' = audioError s -> noUrlShown s = false -> noUrlShown s' = false.
Proof. unfold noUrlShown. intros ->. auto. Qed.

Lemma noUrl_none s' : audioError s' = None -> noUrlShown s' = false.
Proof. unfold noUrlShown. intros ->. reflexivity. Qed.

Lemma noUrl_some s' m :
  audioError s' = Some m -> streq m noUrlMessage = false -> noUrlShown s' = false.
Proof. unfold noUrlShown. intros ->. auto. Qed.

Lemma rendersControls_hasUrl s : rendersControls s = true -> hasUrl s.(audioUrl) = true.
Proof. unfold rendersControls. rewrite !andb_true_iff. tauto. Qed.

Lemma noUrl_step {b : Browser} ev s : noUrlShown s = false -> noUrlShown (step ev s) = false.
Proof.
  intros H. destruct ev; cbn [step].
  - destruct (mounted s); [|exact H].
    destruct (receiveProps_fields url loading s) as (_ & [E|E]);
      [eapply noUrl_keep; eauto | now apply noUrl_none].
  - destruct (rendersControls s && negb (isLoadingAudio s)) eqn:E; [|exact H].
    apply andb_true_iff in E. destruct E as [E _].
    apply noUrl_none, togglePlay_fields, rendersControls_hasUrl, E.
  - destruct (togglePlayLoaded_fields volume0 s) as (_ & _ & [E|E]);
      [eapply noUrl_keep; eauto|].
    eapply noUrl_some; [exact E | apply playbackErrorMessage_not_noUrl].
  - eapply noUrl_some; [apply togglePlayCatch_fields | apply playbackErrorMessage_not_noUrl].
  - exact H.
  - eapply noUrl_some; [apply togglePlayCatch_fields | apply playbackErrorMessage_not_noUrl].
  - destruct (testAudioUrlSettled_fields response s) as (_ & _ & [E|[st E]]);
      [eapply noUrl_keep; eauto|].
    eapply noUrl_some; [exact E|]. vm_compute. reflexivity.
  - eapply noUrl_keep; [apply same_intervalCallback | exact H].
  - destruct (audioRef s); [|exact H].
    eapply noUrl_keep; [|exact H].
    apply (same_trans s _ _ (same_setAudioRef _ s) (same_handleTimeUpdate _)).
  - destruct (audioRef s); [|exact H].
    destruct (handleLoadedMetadata_fields (setAudioRef (Some (mediaMetadata d m)) s))
      as (_ & _ & [E|E]); [eapply noUrl_keep; eauto | now apply noUrl_none].
  - eapply noUrl_keep; [apply same_withAudio | exact H].
  - destruct (audioRef s); [|exact H].
    eapply noUrl_keep; [|exact H].
    apply (same_trans s _ _ (same_setAudioRef _ s) (same_handleEnded _)).
  - destruct (audioRef s); [|exact H].
    eapply noUrl_some; [apply handleAudioError_fields | apply audioErrorMessage_not_noUrl].
  - destruct (rendersControls s); [|exact H].
    eapply noUrl_keep; [apply same_handleSeek | exact H].
  - destruct (rendersControls s); [|exact H].
    eapply noUrl_keep; [apply handleVolumeChange_fields | exact H].
  - destruct (rendersControls s); [|exact H].
    eapply noUrl_keep; [apply openAudioInNewTab_fields | exact H].
  - exact H.
Qed.

Lemma audioError_mount u l : audioError (mount u l) = None.
Proof.
  unfold mount.
  destruct (same_testEffect_volume (resetEffect (commitAudio (initial u l)))) as [_ ->].
  apply resetEffect_volume.
Qed.

(** X8: the error ["No audio URL available"] is never shown: in no state a
    mounted player can reach is it the error message.  [togglePlay] sets it
    when there is no URL, but then no play button is rendered and a click is
    not delivered. *)
Theorem no_url_error_unreachable {b : Browser} (u : option jsstring) (l : bool) (evs : list Event) :
  noUrlShown (run evs (mount u l)) = false /\
  (forall s, hasUrl s.(audioUrl) = false ->
     noUrlShown (togglePlay s) = true /\ step ClickPlay s = s).
Proof.
  split.
  - assert (H : forall s, noUrlShown s = false -> noUrlShown (run evs s) = false).
    { induction evs as [|ev evs IH]; intros s Hs; [exact Hs|].
      apply IH, noUrl_step, Hs. }
    apply H, noUrl_none, audioError_mount.
  - intros s Hu. split.
    + unfold togglePlay. destruct (audioUrl s) as [url|]; [|reflexivity].
      cbn [hasUrl] in Hu. rewrite Hu. reflexivity.
    + cbn [step]. unfold rendersControls. rewrite Hu, andb_false_r. reflexivity.
Qed.

(** The theorem above at a player without reference. *)
Lemma no_url_error_unreachable_witness :
  noUrlShown (togglePlay (b := absoluteUrls) (mount None false)) = true /\
  noUrlShown (run (b := absoluteUrls) [ClickPlay] (mount None false)) = false.
Proof.
  destruct (no_url_error_unreachable (b := absoluteUrls) None false [ClickPlay]) as [H1 H2].
  split; [|exact H1].
  apply (H2 (mount None false)). vm_compute. reflexivity.
Defined.

(* ===================================================================== *)
(** ** The current player: requests *)
(* ===================================================================== *)

Lemma quiet_keep s s' :
  sameCore s s' -> network s' = network s -> quiet s -> quiet s'.
Proof.
  intros (Hu & _ & _ & _ & Ha) Hn (Qn & Qu & Qa).
  repeat split; [congruence | rewrite Hu; exact Qu | auto].
Qed.

Lemma quiet_clears s s' :
  clears s s' -> network s' = network s -> quiet s -> quiet s'.
Proof.
  intros (Hu & _ & _ & _ & Ha) Hn (Qn & Qu & Qa).
  repeat split; [congruence | rewrite Hu; exact Qu | auto].
Qed.

Lemma quietUrl_rendersAudio u l : quietUrl u = true -> rendersAudio u l = false.
Proof.
  unfold quietUrl, rendersAudio. destruct (hasUrl u); cbn [negb orb].
  - intros ->. cbn [negb]. apply andb_false_r.
  - intros _. rewrite andb_false_r. reflexivity.
Qed.

Lemma testEffect_quiet s : quietUrl s.(audioUrl) = true -> testEffect s = s.
Proof.
  unfold quietUrl, testEffect. destruct (audioUrl s) as [url|]; [|reflexivity].
  cbn [hasUrl urlOrEmpty]. destruct (JS.truthy url); cbn [negb orb andb]; [|reflexivity].
  intros ->. cbn [negb]. rewrite andb_false_r. reflexivity.
Qed.

Lemma openAudioInNewTab_quiet s :
  quietUrl s.(audioUrl) = true -> openAudioInNewTab s = s.
Proof.
  unfold quietUrl, openAudioInNewTab. destruct (audioUrl s) as [url|]; [|reflexivity].
  cbn [hasUrl urlOrEmpty]. destruct (JS.truthy url); cbn [negb orb andb]; [|reflexivity].
  intros ->. reflexivity.
Qed.

Lemma quiet_commit u l s :
  quietUrl u = true -> s.(network) = [] ->
  quiet (commitAudio (setIsLoading l (setAudioUrl u s))).
Proof.
  intros Hu Hn. unfold commitAudio.
  change (audioUrl (setIsLoading l (setAudioUrl u s))) with u.
  change (isLoading (setIsLoading l (setAudioUrl u s))) with l.
  rewrite (quietUrl_rendersAudio u l Hu). repeat split; assumption.
Qed.

Lemma quiet_effects s : quiet s -> quiet (testEffect (resetEffect s)).
Proof.
  intros Q.
  assert (Q1 : quiet (resetEffect s)).
  { apply (quiet_clears s); [apply clears_resetEffect | apply network_resetEffect | exact Q]. }
  rewrite testEffect_quiet; [exact Q1 | apply Q1].
Qed.

Lemma quiet_togglePlay {b : Browser} s : quiet s -> quiet (togglePlay s).
Proof.
  intros Q. unfold togglePlay.
  assert (Qe : forall e, quiet (setAudioError e s)) by (intros e; exact Q).
  destruct (audioUrl s) as [url|] eqn:Hu; [|apply Qe].
  destruct (JS.truthy url) eqn:Ht; cbn [negb]; [|apply Qe].
  cbn zeta. pose proof (Qe None) as Q1. set (s1 := setAudioError None s) in *.
  assert (Hp : isPlaceholderUrl url = true).
  { destruct Q as (_ & Qu & _). unfold quietUrl in Qu. rewrite Hu in Qu.
    cbn [hasUrl urlOrEmpty] in Qu. rewrite Ht in Qu. exact Qu. }
  rewrite Hp. destruct (isPlaying s1).
  - apply (quiet_clears s1); [apply clears_stopCurrentPlayback | apply same_stopCurrentPlayback | exact Q1].
  - assert (Hh : hasUrl (audioUrl s1) = true).
    { change (audioUrl s1) with (audioUrl s). rewrite Hu. exact Ht. }
    destruct (playPlaceholderAudio_fields s1 Hh) as (_ & _ & (A & _ & B & C & _)).
    destruct Q1 as (Qn & Qu & Qa). repeat split; congruence.
Qed.

Lemma quiet_step {b : Browser} ev s : quietEvent ev = true -> quiet s -> quiet (step ev s).
Proof.
  intros Hev Q. destruct ev; cbn [step]; cbn [quietEvent] in Hev.
  - destruct (mounted s); [|exact Q]. unfold receiveProps.
    pose proof (quiet_commit url loading s Hev (proj1 Q)) as Q0.
    destruct (negb _); [apply quiet_effects|]; exact Q0.
  - destruct (_ && _); [apply quiet_togglePlay|]; exact Q.
  - apply (quiet_keep s); [apply core_togglePlayLoaded | apply togglePlayLoaded_fields | exact Q].
  - apply (quiet_keep s); [apply core_togglePlayCatch | reflexivity | exact Q].
  - apply (quiet_keep s); [apply core_togglePlayStarted | reflexivity | exact Q].
  - apply (quiet_keep s); [apply core_togglePlayCatch | reflexivity | exact Q].
  - apply (quiet_keep s); [apply core_testAudioUrlSettled | apply testAudioUrlSettled_fields | exact Q].
  - destruct (timers s !! id) as [p|] eqn:E;
      [|unfold intervalCallback; rewrite E; exact Q].
    destruct (intervalCallback_fields id p s E) as ((Hu & _ & Ha) & _).
    destruct Q as (Qn & Qu & Qa). repeat split.
    + rewrite (proj1 (same_intervalCallback id s)). exact Qn.
    + rewrite Hu. exact Qu.
    + rewrite Ha. exact Qa.
  - rewrite (proj2 (proj2 Q)). exact Q.
  - rewrite (proj2 (proj2 Q)). exact Q.
  - unfold withAudio. rewrite (proj2 (proj2 Q)). exact Q.
  - rewrite (proj2 (proj2 Q)). exact Q.
  - rewrite (proj2 (proj2 Q)). exact Q.
  - destruct (rendersControls s); [|exact Q].
    apply (quiet_keep s); [apply core_handleSeek | apply same_handleSeek | exact Q].
  - destruct (rendersControls s); [|exact Q].
    apply (quiet_keep s); [apply core_handleVolumeChange | apply handleVolumeChange_fields | exact Q].
  - destruct (rendersControls s); [|exact Q].
    rewrite openAudioInNewTab_quiet; [exact Q | apply Q].
  - destruct Q as (Qn & Qu & Qa). repeat split; assumption.
Qed.

(** X7: a player that is mounted with no reference, an empty one or a
    placeholder URL, and that receives only such references, never issues a
    request, whatever else happens to it (clicks, timer firings, settling
    promises, media events, unmounting). *)
Theorem placeholder_only_never_requests {b : Browser} (u : option jsstring) (l : bool)
    (evs : list Event) :
  quietUrl u = true -> forallb quietEvent evs = true ->
  (run evs (mount u l)).(network) = [].
Proof.
  intros Hu Hevs.
  assert (Q0 : quiet (mount u l)).
  { unfold mount. apply quiet_effects.
    change (initial u l) with (setIsLoading l (setAudioUrl u (initial u l))).
    apply quiet_commit; [exact Hu | reflexivity]. }
  assert (H : forall s, quiet s -> quiet (run evs s)).
  { induction evs as [|ev evs IH]; intros s Q; [exact Q|].
    cbn [forallb] in Hevs. apply andb_true_iff in Hevs. destruct Hevs as [H1 H2].
    apply (IH H2), quiet_step; assumption. }
  apply (H _ Q0).
Qed.

(** The theorem above at a placeholder that is played, opened "directly"
    and replaced by no reference. *)
Lemma placeholder_only_never_requests_witness :
  (run (b := absoluteUrls) [ClickPlay; Tick 1; ClickOpenDirect; Props None false; LoadResolved 1]
       (mount (Some (lit "placeholder_1.mp3")) false)).(network) = [].
Proof.
  apply (placeholder_only_never_requests (b := absoluteUrls) (Some (lit "placeholder_1.mp3")) false
           [ClickPlay; Tick 1; ClickOpenDirect; Props None false; LoadResolved 1]);
    vm_compute; reflexivity.
Defined.

Lemma resetEffect_audioTested s : audioTested (resetEffect s) = false.
Proof. by_state. Qed.

Lemma testEffect_network s u :
  s.(audioUrl) = Some u -> s.(audioTested) = false ->
  network (testEffect s) = network s ++ (if probed u then [Head u] else []) /\
  audioTested (testEffect s)
  = JS.truthy u && negb (isPlaceholderUrl u) && isMurfUrl u.
Proof.
  intros Hu Ht. unfold testEffect, testAudioUrl, probed. rewrite Hu, Ht. cbn [negb].
  rewrite andb_true_r.
  destruct (JS.truthy u && negb (isPlaceholderUrl u)); cbn [andb].
  - destruct (isMurfUrl u); cbn [negb].
    + split; [now rewrite app_nil_r | reflexivity].
    + split; [reflexivity | exact Ht].
  - split; [now rewrite app_nil_r | exact Ht].
Qed.

Lemma commitAudio_network s :
  network (commitAudio s)
  = network s ++
    (if rendersAudio s.(audioUrl) s.(isLoading)
     then match s.(audioRef) with
          | Some _ => []
          | None => [MediaLoad (urlOrEmpty s.(audioUrl))]
          end
     else []).
Proof.
  unfold commitAudio. destruct (rendersAudio _ _); [destruct (audioRef s)|];
    cbn [network setAudioRef request setNetwork]; rewrite ?app_nil_r; reflexivity.
Qed.

Lemma effects_network s u :
  s.(audioUrl) = Some u ->
  network (testEffect (resetEffect (commitAudio s)))
  = network s ++
    (if rendersAudio (Some u) s.(isLoading)
     then match s.(audioRef) with Some _ => [] | None => [MediaLoad u] end
     else [])
    ++ (if probed u then [Head u] else []) /\
  audioTested (testEffect (resetEffect (commitAudio s)))
  = JS.truthy u && negb (isPlaceholderUrl u) && isMurfUrl u.
Proof.
  intros Hu.
  assert (Hu2 : audioUrl (resetEffect (commitAudio s)) = Some u).
  { rewrite audioUrl_resetEffect, audioUrl_commitAudio. exact Hu. }
  destruct (testEffect_network _ u Hu2 (resetEffect_audioTested _)) as [Hn Ht].
  split; [|exact Ht].
  rewrite Hn, network_resetEffect, commitAudio_network, Hu. cbn [urlOrEmpty].
  rewrite <- app_assoc. reflexivity.
Qed.

(** X6: the requests a new audio reference causes.  On mount, and when a
    mounted player receives a different URL, the media element fetches the
    URL if an element is rendered and was not mounted before, and a HEAD
    probe is sent exactly when the URL is not empty, not a placeholder and
    not a Murf or S3 URL; a Murf or S3 URL is marked as tested without a
    probe. *)
Theorem reference_requests {b : Browser} (u : jsstring) (l : bool) :
  ((mount (Some u) l).(network)
   = (if rendersAudio (Some u) l then [MediaLoad u] else [])
     ++ (if probed u then [Head u] else []) /\
   (mount (Some u) l).(audioTested)
   = JS.truthy u && negb (isPlaceholderUrl u) && isMurfUrl u) /\
  (forall s : State,
     s.(mounted) = true -> sameUrl s.(audioUrl) (Some u) = false ->
     (step (Props (Some u) l) s).(network)
     = s.(network)
       ++ (if rendersAudio (Some u) l
           then match s.(audioRef) with Some _ => [] | None => [MediaLoad u] end
           else [])
       ++ (if probed u then [Head u] else [])).
Proof.
  split.
  - unfold mount. destruct (effects_network (initial (Some u) l) u eq_refl) as [Hn Ht].
    split; [|exact Ht]. rewrite Hn. reflexivity.
  - intros s Hm Hu. cbn [step]. rewrite Hm, (receiveProps_changed _ _ _ Hu).
    destruct (effects_network (setIsLoading l (setAudioUrl (Some u) s)) u eq_refl)
      as [Hn _].
    exact Hn.
Qed.

(** The theorem above at a player without reference that receives a URL
    of another host. *)
Lemma reference_requests_witness :
  let url := lit "https://example.com/a.mp3" in
  (step (b := absoluteUrls) (Props (Some url) false) (mount None false)).(network)
  = [MediaLoad url; Head url].
Proof.
  cbn zeta.
  destruct (reference_requests (b := absoluteUrls) (lit "https://example.com/a.mp3") false)
    as [_ H].
  rewrite H; vm_compute; reflexivity.
Defined.

(** X4: when the media element reports its metadata the duration cell takes
    the element's duration, or 0 when that is [NaN] or 0, so it is never
    [NaN]; the error is cleared; and with a duration of 0 every click on the
    progress bar is ignored. *)
Theorem metadata_duration {b : Browser} (s : State) (d : float) :
  s.(audioRef) <> None ->
  let s' := step (LoadedMetadata d) s in
  s'.(duration) = (if Num.truthy d then d else 0%float) /\
  Num.isNaN s'.(duration) = false /\
  s'.(audioError) = None /\
  (Num.truthy d = false -> forall x l w, step (ClickBar x l w) s' = s').
Proof.
  intros Ha. cbn zeta. cbn [step].
  destruct (audioRef s) as [a|] eqn:E; [clear Ha | now destruct Ha].
  assert (Hd : duration (handleLoadedMetadata (setAudioRef (Some (mediaMetadata d a)) s))
               = if Num.truthy d then d else 0%float) by reflexivity.
  split; [exact Hd|]. split; [|split; [reflexivity|]].
  - rewrite Hd. unfold Num.truthy, Num.isNaN.
    destruct (Prim2SF d) eqn:Hp; try rewrite Hp; reflexivity.
  - intros Ht x l w. cbn [step].
    destruct (rendersControls _); [|reflexivity].
    unfold handleSeek at 1.
    change (audioRef (handleLoadedMetadata (setAudioRef (Some (mediaMetadata d a)) s)))
      with (Some (mediaMetadata d a)).
    rewrite Hd, Ht. reflexivity.
Qed.

(** The theorem above at an element that reports a duration of [NaN]. *)
Lemma metadata_duration_witness :
  let s := mount (Some (lit "https://murf.ai/clip.mp3")) false in
  (step (b := absoluteUrls) (LoadedMetadata nan) s).(duration) = 0%float.
Proof.
  cbn zeta.
  destruct (metadata_duration (b := absoluteUrls)
              (mount (Some (lit "https://murf.ai/clip.mp3")) false) nan
              ltac:(vm_compute; discriminate)) as (H & _).
  rewrite H. vm_compute. reflexivity.
Defined.

(* ===================================================================== *)
(** ** The current player: stopping, ending and playing a real URL *)
(* ===================================================================== *)

Lemma togglePlay_stop {b : Browser} (s : State) (url : jsstring) :
  s.(audioUrl) = Some url -> JS.truthy url = true -> s.(isPlaying) = true ->
  isPlaceholderUrl url = true \/ s.(audioRef) <> None ->
  togglePlay s = stopCurrentPlayback (setAudioError None s).
Proof.
  intros Hu Ht Hp Hk. unfold togglePlay. rewrite Hu, Ht. cbn [negb]. cbn zeta.
  change (isPlaying (setAudioError None s)) with (isPlaying s).
  change (audioRef (setAudioError None s)) with (audioRef s).
  rewrite Hp. destruct (isPlaceholderUrl url); [reflexivity|].
  destruct (audioRef s); [reflexivity|].
  destruct Hk as [Hk|Hk]; [discriminate | now destruct Hk].
Qed.

Lemma stopCurrentPlayback_fields (s : State) :
  let s' := stopCurrentPlayback s in
  s'.(isPlaying) = false /\ s'.(currentTime) = 0%float /\
  s'.(playPromiseRef) = match s.(audioRef) with
                        | Some _ => None
                        | None => s.(playPromiseRef)
                        end /\
  s'.(isLoadingAudio) = s.(isLoadingAudio) /\
  (forall a, s'.(audioRef) = Some a -> a.(paused) = true /\ a.(position) = 0%float).
Proof.
  destruct s as [u l ip d ct ae ila at_ v ar pp si tm nt nw mt].
  destruct si, ar as [[pa en po du sr vo co]|], pp; try destruct pa;
    repeat split; try reflexivity; try discriminate;
    match goal with H : _ = Some _ |- _ => injection H as <- end; reflexivity.
Qed.

Lemma paused_silent (s : State) :
  (forall a, s.(audioRef) = Some a -> a.(paused) = true) ->
  match s.(audioRef) with
  | Some a => if mediaPlaying a then 1%nat else 0%nat
  | None => 0%nat
  end = 0%nat.
Proof.
  intros H. destruct (audioRef s) as [a|]; [|reflexivity].
  unfold mediaPlaying. rewrite (H a eq_refl). reflexivity.
Qed.

(** X1: in every state a mounted player can reach, a click on the play
    button while it plays (a placeholder, or a real URL with its element
    mounted) stops and rewinds: the player rests at 0, nothing advances the
    elapsed time any more, the media element, if any, is paused at 0, no
    request is issued, and a later time update of the element leaves the
    elapsed time at 0.  There is no pause that keeps the position. *)
Theorem stop_rewinds {b : Browser} (u : option jsstring) (l : bool) (evs : list Event)
    (url : jsstring) :
  let s := run evs (mount u l) in
  s.(audioUrl) = Some url -> rendersControls s = true ->
  s.(isLoadingAudio) = false -> s.(isPlaying) = true ->
  isPlaceholderUrl url = true \/ s.(audioRef) <> None ->
  let s' := step ClickPlay s in
  s'.(isPlaying) = false /\ s'.(currentTime) = 0%float /\
  phase s' = Resting /\ drivers s' = 0%nat /\
  (forall a, s'.(audioRef) = Some a ->
     a.(paused) = true /\ a.(position) = 0%float) /\
  s'.(network) = s.(network) /\
  (forall t, (step (TimeUpdate t) s').(currentTime) = 0%float).
Proof.
  cbn zeta. pose proof (Inv_run evs _ (Inv_mount u l)) as HI.
  set (s := run evs (mount u l)) in *.
  intros Hu Hc Hl Hp Hk.
  pose proof (rendersControls_hasUrl s Hc) as Hh.
  assert (Ht : JS.truthy url = true) by (rewrite Hu in Hh; exact Hh).
  assert (Hs : step ClickPlay s = stopCurrentPlayback (setAudioError None s)).
  { cbn [step]. rewrite Hc, Hl. cbn [negb andb].
    apply (togglePlay_stop s url); assumption. }
  rewrite Hs. set (s1 := setAudioError None s).
  pose proof (Inv_setAudioError None s HI) as HI1. fold s1 in HI1.
  destruct (stopCurrentPlayback_fields s1) as (A & B & C & D & E).
  pose proof (clears_stopCurrentPlayback s1) as Hcl.
  destruct (clears_timers _ _ Hcl (timersOk_shape _ (proj1 HI1))) as [_ Hempty].
  destruct (same_stopCurrentPlayback s1) as (Hn & _ & He).
  destruct Hcl as (Hu' & _).
  split; [exact A|]. split; [exact B|]. split.
  { unfold phase. rewrite Hu'. change (audioUrl s1) with (audioUrl s).
    rewrite Hh, D. change (isLoadingAudio s1) with (isLoadingAudio s).
    rewrite Hl, He, A. reflexivity. }
  split.
  { unfold drivers. rewrite Hempty, map_size_empty. apply paused_silent.
    intros a Ha. apply (E a Ha). }
  split; [exact E|]. split; [exact Hn|].
  intros t. cbn [step].
  destruct (audioRef (stopCurrentPlayback s1)) as [a|]; [|exact B].
  unfold handleTimeUpdate.
  change (audioRef (setAudioRef (Some (mediaAt t a)) (stopCurrentPlayback s1)))
    with (Some (mediaAt t a)).
  change (isPlaying (setAudioRef (Some (mediaAt t a)) (stopCurrentPlayback s1)))
    with (isPlaying (stopCurrentPlayback s1)).
  rewrite A. exact B.
Qed.

(** The theorem above at a placeholder simulation that has fired once. *)
Lemma stop_rewinds_witness :
  let s := run (b := absoluteUrls) [ClickPlay; Tick 1]
               (mount (Some (lit "placeholder_1.mp3")) false) in
  s.(currentTime) = 0.1%float /\
  (step (b := absoluteUrls) ClickPlay s).(currentTime) = 0%float /\
  drivers (step (b := absoluteUrls) ClickPlay s) = 0%nat.
Proof.
  cbn zeta. split; [vm_compute; reflexivity|].
  destruct (stop_rewinds (b := absoluteUrls) (Some (lit "placeholder_1.mp3")) false
              [ClickPlay; Tick 1] (lit "placeholder_1.mp3")
              ltac:(vm_compute; reflexivity) ltac:(vm_compute; reflexivity)
              ltac:(vm_compute; reflexivity) ltac:(vm_compute; reflexivity)
              ltac:(left; vm_compute; reflexivity))
    as (_ & Hct & _ & Hd & _).
  split; [exact Hct | exact Hd].
Defined.

Lemma handleEnded_fields (s : State) :
  let s' := handleEnded s in
  s'.(isPlaying) = false /\ s'.(currentTime) = 0%float /\
  s'.(playPromiseRef) = None /\ s'.(audioRef) = s.(audioRef).
Proof. cbn zeta. by_state. Qed.

(** X3: in every state a mounted player can reach, the [ended] event of the
    media element leaves the player not playing, at 0, without pending play
    promise, and with nothing that advances the elapsed time. *)
Theorem ended_rests {b : Browser} (u : option jsstring) (l : bool) (evs : list Event) :
  let s := run evs (mount u l) in
  s.(audioRef) <> None ->
  let s' := step Ended s in
  s'.(isPlaying) = false /\ s'.(currentTime) = 0%float /\
  s'.(playPromiseRef) = None /\ drivers s' = 0%nat.
Proof.
  cbn zeta. pose proof (Inv_run evs _ (Inv_mount u l)) as HI.
  set (s := run evs (mount u l)) in *.
  intros Ha. cbn [step].
  destruct (audioRef s) as [a|] eqn:E; [clear Ha | now destruct Ha].
  set (s1 := setAudioRef (Some (mediaEnded a)) s).
  assert (HI1 : Inv s1).
  { apply (Inv_sameCore s), HI. apply (core_setAudioRef s a), E. }
  pose proof (clears_handleEnded s1) as Hcl.
  destruct (clears_timers _ _ Hcl (timersOk_shape _ (proj1 HI1))) as [_ Hempty].
  destruct (handleEnded_fields s1) as (A & B & C & Har).
  split; [exact A|]. split; [exact B|]. split; [exact C|].
  unfold drivers. rewrite Hempty, map_size_empty, Har.
  change (audioRef s1) with (Some (mediaEnded a)). cbn match. unfold mediaPlaying. cbn. rewrite andb_false_r. reflexivity.
Qed.

(** The theorem above at a real URL that plays. *)
Lemma ended_rests_witness :
  let s := run (b := absoluteUrls) [ClickPlay; LoadResolved 1; PlayResolved]
               (mount (Some (lit "https://murf.ai/clip.mp3")) false) in
  drivers s = 1%nat /\ drivers (step (b := absoluteUrls) Ended s) = 0%nat.
Proof.
  cbn zeta. split; [vm_compute; reflexivity|].
  destruct (ended_rests (b := absoluteUrls) (Some (lit "https://murf.ai/clip.mp3")) false
              [ClickPlay; LoadResolved 1; PlayResolved]
              ltac:(vm_compute; discriminate))
    as (_ & _ & _ & H).
  exact H.
Defined.

Lemma togglePlay_real {b : Browser} (s : State) (a : Media) (url : jsstring) :
  s.(audioUrl) = Some url -> JS.truthy url = true ->
  isPlaceholderUrl url = false -> s.(audioRef) = Some a ->
  s.(isPlaying) = false ->
  togglePlay s =
    let a1 := if hasSrc a url then a else setSrc url (isMurfUrl url) a in
    let s1 := setIsLoadingAudio true (setAudioError None s) in
    if awaitsSource a1
    then request (MediaLoad url) (setAudioRef (Some (load a1)) s1)
    else setAudioRef (Some a1) s1.
Proof.
  intros Hu Ht Hp Ha Hpl. unfold togglePlay, hasSrc, awaitsSource.
  rewrite Hu, Ht, Hp. cbn [negb]. cbn zeta.
  change (audioRef (setAudioError None s)) with (audioRef s).
  change (isPlaying (setAudioError None s)) with (isPlaying s).
  rewrite Ha, Hpl.
  destruct (streq (srcOf a) url); cbn [negb];
    destruct (HAVE_CURRENT_DATA <=? _); cbn [negb andb]; try reflexivity;
    destruct (_ =? NETWORK_NO_SOURCE); reflexivity.
Qed.

Lemma awaitsSource_setSrc (a : Media) (url : jsstring) (anon : bool) :
  awaitsSource (setSrc url anon a) = true.
Proof. reflexivity. Qed.

Arguments Spec.awaitsSource : simpl never.

(** X2: for a real URL with its element mounted, a click on play while at
    rest puts the player in the loading state, in which a further click on
    the (disabled) button does nothing; once the load and the play promise
    have resolved the player plays, and the element plays with the volume
    the cell had at the click: a move of the slider during the load changes
    the cell and is overwritten in the element.  The click requests the
    load of the URL exactly when the [src] of the element does not read
    back as the URL or the element, without data, waits for a resource;
    in the first case [src] is assigned, and it reads back as the URL
    afterwards only if the browser resolves the URL to itself, so that a
    relative URL is loaded anew on every play.  A previous error does not
    matter. *)
Theorem play_real {b : Browser} (s : State) (a : Media) (url : jsstring) :
  s.(audioUrl) = Some url -> isPlaceholderUrl url = false ->
  s.(audioRef) = Some a -> rendersControls s = true ->
  s.(isLoadingAudio) = false -> s.(isPlaying) = false ->
  let s1 := step ClickPlay s in
  let s3 := run [LoadResolved s.(volume); PlayResolved] s1 in
  (phase s1 = Loading /\ step ClickPlay s1 = s1) /\
  (phase s3 = Playing /\ s3.(playPromiseRef) = None /\
   exists a', s3.(audioRef) = Some a' /\ mediaPlaying a' = true /\
              a'.(mediaVolume) = s.(volume) /\
              a'.(src) = (if hasSrc a url then a.(src) else Some url) /\
              hasSrc a' url = hasSrc a url || streq (resolveUrl url) url) /\
  s3.(network)
  = s.(network) ++ (if loadsOnPlay a url then [MediaLoad url] else []) /\
  (forall v,
     let s3' := run [VolumeInput v; LoadResolved s.(volume); PlayResolved] s1 in
     s3'.(volume) = v /\
     exists a', s3'.(audioRef) = Some a' /\ mediaPlaying a' = true /\
                a'.(mediaVolume) = s.(volume)).
Proof.
  intros Hu Hp Ha Hc Hl Hpl.
  pose proof (rendersControls_hasUrl s Hc) as Hh.
  assert (Ht : JS.truthy url = true) by (rewrite Hu in Hh; exact Hh).
  assert (Hs1 : step ClickPlay s = togglePlay s).
  { cbn [step]. rewrite Hc, Hl. reflexivity. }
  cbn zeta. rewrite Hs1, (togglePlay_real s a url Hu Ht Hp Ha Hpl).
  cbn zeta. unfold loadsOnPlay.
  destruct s as [u l ip d ct ae ila at_ v ar pp si tm nt nw mt].
  cbn in Hu, Ha, Hl, Hpl, Hh. subst u ar ila ip.
  unfold rendersControls in Hc. cbn in Hc.
  destruct (hasSrc a url) eqn:Es; cbn [negb orb];
    [destruct (awaitsSource a) eqn:Ew | rewrite awaitsSource_setSrc].
  all: split; [|split; [|split]].
  all: try (split; [unfold phase; cbn; rewrite Ht; reflexivity|];
            cbn [step]; cbn; rewrite andb_false_r; reflexivity).
  all: try (split; [unfold phase; cbn; rewrite Ht; reflexivity|];
            split; [reflexivity|]; eexists; split; [reflexivity|];
            repeat split; cbn [orb]; try exact Es).
  all: try (intros v'; cbn; unfold rendersControls; cbn; rewrite Hc; cbn;
            split; [reflexivity|]; eexists; repeat split).
  all: cbn; rewrite ?app_nil_r; reflexivity.
Qed.

(** The theorem above at a player that has played its URL once, has all the
    data and was stopped: with a relative URL, on a page at
    [https://app.example/], the next play loads the URL again; with an
    absolute URL it requests nothing. *)
Lemma play_real_witness :
  let once := [ClickPlay; MediaState 4 1; LoadResolved 1; PlayResolved;
               ClickPlay] in
  (let url := lit "clips/a.mp3" in
   let page := underBase (lit "https://app.example/") in
   let s := run (b := page) once (mount (Some url) false) in
   s.(network) = [MediaLoad url; Head url; MediaLoad url] /\
   (run (b := page) [LoadResolved s.(volume); PlayResolved]
        (step (b := page) ClickPlay s)).(network)
   = s.(network) ++ [MediaLoad url]) /\
  (let url := lit "https://cdn.example/a.mp3" in
   let s := run (b := absoluteUrls) once (mount (Some url) false) in
   (run (b := absoluteUrls) [LoadResolved s.(volume); PlayResolved]
        (step (b := absoluteUrls) ClickPlay s)).(network)
   = s.(network) ++ []).
Proof.
  cbn zeta. split; [split; [vm_compute; reflexivity|]|].
  - destruct (play_real (b := underBase (lit "https://app.example/"))
                (run (b := underBase (lit "https://app.example/"))
                     [ClickPlay; MediaState 4 1; LoadResolved 1; PlayResolved;
                      ClickPlay]
                     (mount (Some (lit "clips/a.mp3")) false))
                (mkMedia true false 0 nan (Some (lit "clips/a.mp3")) 1 None 4 1)
                (lit "clips/a.mp3")
                ltac:(vm_compute; reflexivity) ltac:(vm_compute; reflexivity)
                ltac:(vm_compute; reflexivity) ltac:(vm_compute; reflexivity)
                ltac:(vm_compute; reflexivity) ltac:(vm_compute; reflexivity))
      as (_ & _ & H & _).
    rewrite H. reflexivity.
  - destruct (play_real (b := absoluteUrls)
                (run (b := absoluteUrls)
                     [ClickPlay; MediaState 4 1; LoadResolved 1; PlayResolved;
                      ClickPlay]
                     (mount (Some (lit "https://cdn.example/a.mp3")) false))
                (mkMedia true false 0 nan
                   (Some (lit "https://cdn.example/a.mp3")) 1 None 4 1)
                (lit "https://cdn.example/a.mp3")
                ltac:(vm_compute; reflexivity) ltac:(vm_compute; reflexivity)
                ltac:(vm_compute; reflexivity) ltac:(vm_compute; reflexivity)
                ltac:(vm_compute; reflexivity) ltac:(vm_compute; reflexivity))
      as (_ & _ & H & _).
    rewrite H. reflexivity.
Defined.

(* ===================================================================== *)
(** ** The earlier player *)
(* ===================================================================== *)

(** X10: in the earlier player a click on play under a mock URL does
    nothing: no [<audio>] element is rendered for such a URL, [audioRef] is
    empty, and [togglePlay] returns before its mock branch; no simulation
    starts and the player never shows as playing. *)
Theorem legacy_mock_click_does_nothing (s : Legacy.State) :
  Legacy.committed s ->
  isMockUrl (urlOrEmpty s.(Legacy.audioUrl)) = true ->
  Legacy.togglePlay s = s /\
  (Legacy.togglePlay s).(Legacy.timers) = s.(Legacy.timers) /\
  (Legacy.togglePlay s).(Legacy.isPlaying) = s.(Legacy.isPlaying).
Proof.
  intros Hc Hm. rewrite (legacy_togglePlay_mock_dead s Hc Hm).
  repeat split.
Qed.

(** The theorem above at a committed render of a mock URL. *)
Lemma legacy_mock_click_does_nothing_witness :
  let s := Legacy.mkState (Some (lit "placeholder_1.mp3")) false false 0 0
             None false None ∅ [] 1%positive in
  Legacy.togglePlay s = s.
Proof.
  cbn zeta.
  apply (legacy_mock_click_does_nothing
           (Legacy.mkState (Some (lit "placeholder_1.mp3")) false false 0 0
              None false None ∅ [] 1%positive)).
  - intros _. reflexivity.
  - vm_compute. reflexivity.
Defined.

Section LegacyFormat.
Variable toStringOther : spec_float -> jsstring.

(** X9: the two [formatTime] functions agree on every number that is finite
    or [NaN]; on the infinities the current one returns ["0:00"] while the
    earlier one, which only tests [isNaN], returns a text that ends in
    [":NaN"]. *)
Theorem legacy_formatTime_differs_at_infinity (t : float) :
  (Num.isFinite t = true \/ Num.isNaN t = true ->
   Legacy.formatTime toStringOther t = Player.formatTime toStringOther t) /\
  (Num.isFinite t = false -> Num.isNaN t = false ->
   Player.formatTime toStringOther t = lit "0:00" /\
   Legacy.formatTime toStringOther t =
     Num.numberToString toStringOther (Num.floor (Prim2SF (t / 60)))
     ++ lit ":NaN" /\
   Legacy.formatTime toStringOther t <> Player.formatTime toStringOther t).
Proof.
  unfold Legacy.formatTime, Player.formatTime, Num.isFinite, Num.isNaN.
  split.
  - intros [H|H].
    + rewrite H. cbn [negb]. rewrite orb_false_r. reflexivity.
    + rewrite H. reflexivity.
  - destruct (Prim2SF t) as [s|s| |s m e] eqn:Ht; try discriminate.
    intros _ _. cbn [orb negb].
    assert (Hl : forall x : jsstring, x ++ lit ":" ++ padStart0 2 (Num.numberToString toStringOther (Num.floor (Num.remainder (S754_infinity s) 60))) = x ++ lit ":NaN").
    { intros x. reflexivity. }
    rewrite Hl. split; [reflexivity|]. split; [reflexivity|].
    intros H. apply (f_equal (@rev _)) in H. rewrite rev_app_distr in H.
    change (rev (lit ":NaN")) with [78; 97; 78; 58] in H.
    change (rev (lit "0:00")) with [48; 48; 58; 48] in H.
    discriminate H.
Qed.

End LegacyFormat.

(** The theorem above at infinity. *)
Lemma legacy_formatTime_differs_at_infinity_witness :
  Legacy.formatTime (fun _ => []) infinity = lit "Infinity:NaN" /\
  Player.formatTime (fun _ => []) infinity = lit "0:00".
Proof.
  destruct (legacy_formatTime_differs_at_infinity (fun _ => []) infinity)
    as [_ H].
  destruct H as (Hp & Hl & _);
    [vm_compute; reflexivity | vm_compute; reflexivity|].
  split; [rewrite Hl; vm_compute; reflexivity | exact Hp].
Defined.

(* ===================================================================== *)
(** ** The emotion visualizer *)
(* ===================================================================== *)

Lemma own_in table key v :
  Visualizer.own table key = Some v -> In v (map snd table).
Proof.
  induction table as [|[k x] table IH]; cbn; [discriminate|].
  destruct (streq k key); [intros [= <-]; now left | right; auto].
Qed.

Lemma own_key table key v :
  Visualizer.own table key = Some v -> In key (map fst table).
Proof.
  induction table as [|[k x] table IH]; cbn; [discriminate|].
  destruct (streq k key) eqn:E; [|right; auto].
  intros _. left. now apply streq_eq.
Qed.

(** X14: [getEmotionColor] returns a class name of the table for every
    emotion that is not the name of a member of [Object.prototype], the gray
    of [neutral] when the emotion is not a key of the table; for the name
    of such a member ([constructor], [toString], ...) the lookup finds the
    inherited member and the result is no class name at all. *)
Theorem emotion_color_fallback (emotion : jsstring) :
  (existsb (streq emotion) Visualizer.objectPrototype = false ->
   exists c, Visualizer.getEmotionColor emotion = Visualizer.Str c /\
             In c Spec.colorClasses /\
             (Visualizer.own Visualizer.colors emotion = None ->
              c = lit "bg-gray-500")) /\
  (existsb (streq emotion) Visualizer.objectPrototype = true ->
   Visualizer.getEmotionColor emotion = Visualizer.Inherited emotion).
Proof.
  unfold Visualizer.getEmotionColor, Visualizer.get. split.
  - intros Hp. destruct (Visualizer.own Visualizer.colors emotion) as [v|] eqn:E.
    + assert (Hin := own_in _ _ _ E).
      assert (Ht : JS.truthy v = true).
      { cbn in Hin. repeat (destruct Hin as [<-|Hin]; [reflexivity|]). destruct Hin. }
      rewrite Ht. exists v. split; [reflexivity|]. split; [exact Hin | discriminate].
    + rewrite Hp. eexists. split; [reflexivity|]. split; [|reflexivity].
      vm_compute. tauto.
  - intros Hp. destruct (Visualizer.own Visualizer.colors emotion) as [v|] eqn:E;
      [|rewrite Hp; reflexivity].
    exfalso. apply own_key in E. cbn in E.
    repeat (destruct E as [<-|E]; [vm_compute in Hp; discriminate Hp|]).
    destruct E.
Qed.

(** The theorem above at an emotion that the table does not know. *)
Lemma emotion_color_fallback_witness :
  Visualizer.getEmotionColor (lit "joy") = Visualizer.Str (lit "bg-gray-500").
Proof.
  destruct (emotion_color_fallback (lit "joy")) as [H _].
  destruct (H ltac:(vm_compute; reflexivity)) as (c & Hc & _ & Hg).
  rewrite Hc, (Hg ltac:(vm_compute; reflexivity)). reflexivity.
Defined.

(* ===================================================================== *)
(** ** The studio *)
(* ===================================================================== *)


(** X11: a call of [generateSpeech] never passes unnoticed: either it shows
    one alert and changes nothing else (socket, messages sent, generating
    flag, text), or it shows none, sends one [voice_request] and sets the
    generating flag. *)
Theorem generateSpeech_alert_or_send (s : Studio.State) :
  let s' := Studio.generateSpeech s in
  (exists msg,
     s'.(Studio.alerts) = s.(Studio.alerts) ++ [msg] /\
     s'.(Studio.socket) = s.(Studio.socket) /\
     s'.(Studio.isGenerating) = s.(Studio.isGenerating) /\
     s'.(Studio.text) = s.(Studio.text)) \/
  (s'.(Studio.alerts) = s.(Studio.alerts) /\
   s'.(Studio.socket).(Studio.sent) =
     s.(Studio.socket).(Studio.sent) ++
     [Studio.VoiceRequest (trim s.(Studio.text))
        s.(Studio.selectedCharacter)] /\
   s'.(Studio.isGenerating) = true /\
   s'.(Studio.text) = s.(Studio.text)).
Proof.
  cbn zeta. unfold Studio.generateSpeech.
  destruct (negb (JS.truthy (trim (Studio.text s))));
    [left; eexists; repeat split|].
  destruct (negb (Studio.ws s) || negb (Studio.isOpen (Studio.socket s)));
    [left; eexists; repeat split|].
  right. repeat split.
Qed.

Lemma voiceRequests_app l1 l2 :
  Spec.voiceRequests (l1 ++ l2) = (Spec.voiceRequests l1 + Spec.voiceRequests l2)%nat.
Proof.
  induction l1 as [|[t c|c] l1 IH]; cbn; [reflexivity| |exact IH].
  rewrite IH. reflexivity.
Qed.

Lemma uiStep_budget (ev : Studio.Event) (s : Studio.State) :
  let s' := Studio.uiStep ev s in
  (Spec.voiceRequests s'.(Studio.socket).(Studio.sent) + Spec.idle s'
   <= (if Spec.settles ev then 1 else 0)
      + Spec.voiceRequests s.(Studio.socket).(Studio.sent) + Spec.idle s)%nat.
Proof.
  cbn zeta. unfold Spec.idle.
  destruct ev as [ |m| | |t| |c]; cbn [Studio.uiStep Studio.step Spec.settles].
  - cbn. lia.
  - destruct m; cbn; destruct (Studio.isGenerating s); lia.
  - cbn. destruct (Studio.isGenerating s); lia.
  - cbn. destruct (Studio.isGenerating s); lia.
  - cbn. lia.
  - unfold Studio.generateDisabled.
    destruct (Studio.isGenerating s) eqn:Hg; cbn [orb]; [rewrite Hg; lia|].
    destruct (negb (JS.truthy (trim (Studio.text s))) || _); [rewrite Hg; lia|].
    unfold Studio.generateSpeech.
    destruct (negb (JS.truthy (trim (Studio.text s)))); [cbn; rewrite Hg; lia|].
    destruct (negb (Studio.ws s) || _); [cbn; rewrite Hg; lia|].
    cbn. rewrite voiceRequests_app. cbn. lia.
  - unfold Studio.handleCharacterChange.
    change (Studio.ws (Studio.setSelectedCharacter c s)) with (Studio.ws s).
    change (Studio.socket (Studio.setSelectedCharacter c s)) with (Studio.socket s).
    destruct (Studio.ws s && Studio.isOpen (Studio.socket s)); cbn;
      [rewrite voiceRequests_app; cbn|]; lia.
Qed.

Lemma uiRun_budget (evs : list Studio.Event) (s : Studio.State) :
  (Spec.voiceRequests (Studio.uiRun evs s).(Studio.socket).(Studio.sent)
   + Spec.idle (Studio.uiRun evs s)
   <= Spec.settled evs
      + Spec.voiceRequests s.(Studio.socket).(Studio.sent) + Spec.idle s)%nat.
Proof.
  revert s. induction evs as [|ev evs IH]; intros s; [cbn; lia|].
  change (Studio.uiRun (ev :: evs) s) with (Studio.uiRun evs (Studio.uiStep ev s)).
  specialize (IH (Studio.uiStep ev s)). pose proof (uiStep_budget ev s) as H.
  cbn zeta in H. cbn [Spec.settled]. lia.
Qed.

(** X12: with the "Generate Speech" button disabled as rendered, the studio
    has at most one voice request in flight: after any sequence of events
    the number of voice requests sent is at most one more than the number of
    events that cleared the generating flag (a voice response, a message on
    which [onmessage] throws, be it JSON for [null] or no JSON at all, a
    socket error, a close), and not more than that number while the flag is
    clear. *)
Theorem one_request_in_flight (evs : list Studio.Event) :
  let s := Studio.uiRun evs Studio.initial in
  (Spec.voiceRequests s.(Studio.socket).(Studio.sent) <= Spec.settled evs + 1)%nat /\
  (s.(Studio.isGenerating) = false ->
   Spec.voiceRequests s.(Studio.socket).(Studio.sent) <= Spec.settled evs)%nat.
Proof.
  cbn zeta. pose proof (uiRun_budget evs Studio.initial) as H.
  unfold Spec.idle in H. cbn in H.
  destruct (Studio.isGenerating (Studio.uiRun evs Studio.initial)); split; lia.
Qed.

(** The theorem above at two clicks in a row on an open channel, and at
    two clicks with a [null] message in between. *)
Lemma one_request_in_flight_witness :
  (let evs := [Studio.Open; Studio.TypeText (lit "Hello!");
               Studio.ClickGenerate; Studio.ClickGenerate] in
   Spec.voiceRequests
     (Studio.uiRun evs Studio.initial).(Studio.socket).(Studio.sent) = 1%nat) /\
  (let evs := [Studio.Open; Studio.TypeText (lit "Hello!");
               Studio.ClickGenerate; Studio.Message Studio.JsonNull;
               Studio.ClickGenerate] in
   Spec.voiceRequests
     (Studio.uiRun evs Studio.initial).(Studio.socket).(Studio.sent) = 2%nat).
Proof.
  cbn zeta.
  destruct (one_request_in_flight
              [Studio.Open; Studio.TypeText (lit "Hello!");
               Studio.ClickGenerate; Studio.ClickGenerate]) as [H1 _].
  destruct (one_request_in_flight
              [Studio.Open; Studio.TypeText (lit "Hello!");
               Studio.ClickGenerate; Studio.Message Studio.JsonNull;
               Studio.ClickGenerate]) as [H2 _].
  split; apply Nat.le_antisymm;
    [exact H1 | vm_compute; lia | exact H2 | vm_compute; lia].
Defined.

(** X13: after [handleCharacterChange c] the selected character is [c],
    whether or not the channel is open (if it is not, nothing is sent and the
    server is not told), and a voice request that [generateSpeech] sends next
    carries [c]. *)
Theorem request_carries_latest_character (c : jsstring) (s : Studio.State) :
  let s1 := Studio.handleCharacterChange c s in
  let s2 := Studio.generateSpeech s1 in
  s1.(Studio.selectedCharacter) = c /\
  (s.(Studio.ws) && Studio.isOpen s.(Studio.socket) = false ->
   s1.(Studio.socket) = s.(Studio.socket)) /\
  exists new, Spec.newlySent s1 s2 new /\
    forall t c', In (Studio.VoiceRequest t c') new -> c' = c.
Proof.
  cbn zeta.
  assert (H1 : Studio.selectedCharacter (Studio.handleCharacterChange c s) = c).
  { unfold Studio.handleCharacterChange.
    change (Studio.ws (Studio.setSelectedCharacter c s)) with (Studio.ws s).
    change (Studio.socket (Studio.setSelectedCharacter c s)) with (Studio.socket s).
    destruct (_ && _); reflexivity. }
  split; [exact H1|]. split.
  - intros H. unfold Studio.handleCharacterChange.
    change (Studio.ws (Studio.setSelectedCharacter c s)) with (Studio.ws s).
    change (Studio.socket (Studio.setSelectedCharacter c s)) with (Studio.socket s).
    rewrite H. reflexivity.
  - eexists. split; [apply generateSpeech_sent|].
    rewrite H1. intros t c'.
    destruct (_ && _); [|intros []]. intros [[= _ <-]|[]]. reflexivity.
Qed.

(** The theorem above at a switch to the villain before the channel
    opens. *)
Lemma request_carries_latest_character_witness :
  (Studio.handleCharacterChange (lit "villain") Studio.initial)
    .(Studio.socket).(Studio.sent) = [].
Proof.
  destruct (request_carries_latest_character (lit "villain") Studio.initial)
    as (_ & H & _).
  rewrite H; reflexivity.
Defined.
